(** * SimSimi chatbot API: response store, request handlers and rate limiter

    A shallow embedding of [database.js] (class [Database]) and of
    [routes/simsimi.js] (the Express router), together with the part of the
    SQLite engine that the SQL statements of [database.js] rely on.

    Conventions of the model.
    - Text is a [string] of 8-bit characters read as the code points
      U+0000..U+00FF.  On that range JavaScript's [toLowerCase]/[trim] and
      SQLite's [LOWER]/[TRIM]/[LIKE] are modelled separately, because they
      differ: SQLite folds ASCII letters only and trims the space
      character only.
    - A promise is a [result]: [Resolved v] or [Rejected e].  Only the
      deterministic errors of the SQL engine are modelled (no I/O faults).
    - A JavaScript number that holds an integer is a [Z]; where the code
      computes with numbers read from a request the result is rounded to
      the nearest double ([Routes.to_double]).
    - [Date.now()], [CURRENT_TIMESTAMP] and [Math.random()] are inputs, and
      so is the outcome of each attempt to open the database file. *)

From Stdlib Require Import ZArith QArith Qround Ascii String Sorted.
From stdpp Require Import base list strings gmap.

Local Open Scope string_scope.
Local Open Scope Z_scope.

(** ** Text primitives *)

Module Text.

(** Code point of a character. *)
Definition code (c : ascii) : Z := Z.of_N (N_of_ascii c).

Definition shift32 (c : ascii) : ascii := ascii_of_N (N_of_ascii c + 32).

(** [String.prototype.toLowerCase] on one code unit below U+0100:
    A-Z, and the Latin-1 capitals U+00C0..U+00DE except U+00D7. *)
Definition js_lower_char (c : ascii) : ascii :=
  let n := code c in
  if ((65 <=? n) && (n <=? 90))
     || ((192 <=? n) && (n <=? 222) && negb (n =? 215))
  then shift32 c else c.

(** SQLite's [LOWER] folds the 26 ASCII capitals only. *)
Definition sql_lower_char (c : ascii) : ascii :=
  let n := code c in
  if (65 <=? n) && (n <=? 90) then shift32 c else c.

(** White space removed by [String.prototype.trim], below U+0100:
    TAB, LF, VT, FF, CR, SPACE and NBSP. *)
Definition js_is_space (c : ascii) : bool :=
  let n := code c in
  ((9 <=? n) && (n <=? 13)) || (n =? 32) || (n =? 160).

(** One-argument SQL [TRIM] removes the space character only. *)
Definition sql_is_space (c : ascii) : bool := code c =? 32.

Fixpoint map_chars (f : ascii -> ascii) (s : string) : string :=
  match s with
  | EmptyString => EmptyString
  | String c s' => String (f c) (map_chars f s')
  end.

Fixpoint trimStart (ws : ascii -> bool) (s : string) : string :=
  match s with
  | EmptyString => EmptyString
  | String c s' => if ws c then trimStart ws s' else s
  end.

Fixpoint trimEnd (ws : ascii -> bool) (s : string) : string :=
  match s with
  | EmptyString => EmptyString
  | String c s' =>
      match trimEnd ws s' with
      | EmptyString => if ws c then EmptyString else String c EmptyString
      | t => String c t
      end
  end.

Definition trim_with (ws : ascii -> bool) (s : string) : string :=
  trimEnd ws (trimStart ws s).

(** [s.toLowerCase()] and [s.trim()] of JavaScript. *)
Definition toLowerCase : string -> string := map_chars js_lower_char.
Definition trim : string -> string := trim_with js_is_space.

(** [LOWER(s)] and [TRIM(s)] of SQLite. *)
Definition LOWER : string -> string := map_chars sql_lower_char.
Definition TRIM : string -> string := trim_with sql_is_space.

(** The characters before the first U+0000: all that a routine working
    on NUL-terminated text reads of a value. *)
Fixpoint c_string (s : string) : string :=
  match s with
  | EmptyString => EmptyString
  | String c s' => if code c =? 0 then EmptyString else String c (c_string s')
  end.

(** Length in bytes of the UTF-8 encoding of a text. *)
Fixpoint utf8_length (s : string) : Z :=
  match s with
  | EmptyString => 0
  | String c s' => (if code c <? 128 then 1 else 2) + utf8_length s'
  end.

(** The engine's [patternCompare] for LIKE with [case_sensitive_like =
    OFF] and no ESCAPE, on two NUL-terminated operands: [%] matches any
    run of characters, [_] exactly one, any other pattern character
    matches itself up to ASCII case. *)
Fixpoint patternCompare (p : string) : string -> bool :=
  match p with
  | EmptyString => fun s => match s with EmptyString => true | _ => false end
  | String c p' =>
      if Ascii.eqb c "%"%char then
        fix star (s : string) : bool :=
          patternCompare p' s
          || match s with
             | EmptyString => false
             | String _ s' => star s'
             end
      else if Ascii.eqb c "_"%char then
        fun s => match s with
                 | EmptyString => false
                 | String _ s' => patternCompare p' s'
                 end
      else
        fun s => match s with
                 | EmptyString => false
                 | String d s' =>
                     Ascii.eqb (sql_lower_char c) (sql_lower_char d)
                     && patternCompare p' s'
                 end
  end.

(** [s LIKE p]: both operands are read up to their first U+0000. *)
Definition LIKE (s p : string) : bool := patternCompare (c_string p) (c_string s).

(** The LIKE function refuses a pattern of more than 50000 bytes ("LIKE or
    GLOB pattern too complex"); the whole value counts, also past a
    U+0000. *)
Definition SQLITE_MAX_LIKE_PATTERN_LENGTH : Z := 50000.

Definition pattern_too_complex (p : string) : bool :=
  SQLITE_MAX_LIKE_PATTERN_LENGTH <? utf8_length p.

(** JavaScript truthiness of a string: only the empty string is falsy. *)
Definition truthy (s : string) : bool :=
  match s with EmptyString => false | _ => true end.

Definition js_length (s : string) : Z := Z.of_nat (String.length s).

End Text.

(** ** The SQLite store of [database.js] *)

Module Sqlite.

(** Errors raised by the engine while preparing or running a statement. *)
Inductive sql_error : Type :=
| CannotInsertIntoGeneratedColumn (column : string)
| NotNullConstraintFailed (column : string)
| DatatypeMismatch
| LikePatternTooComplex.

(** Outcome of a promise returned by a [Database] method. *)
Inductive result (A : Type) : Type :=
| Resolved (value : A)
| Rejected (error : sql_error).
Arguments Resolved {A} value.
Arguments Rejected {A} error.

(** A row of table [conversations].  The column [normalized_question] is
    [GENERATED ALWAYS AS (LOWER(TRIM(question))) VIRTUAL]: it is not
    stored, the engine computes it from [question]. *)
Record conversation : Type := {
  row_id : Z;
  question : string;
  answer : string;
  teach_count : Z;
  is_active : bool;
  created_at : Z;
  updated_at : Z
}.

Definition normalized_question (r : conversation) : string :=
  Text.LOWER (Text.TRIM (question r)).

(** A row of table [logs]. *)
Record log : Type := {
  log_id : Z;
  log_question : string;
  response : option string;
  is_taught : bool;
  response_time_ms : Z;
  user_agent : string;
  ip_address : string;
  timestamp : Z
}.

(** The database file: both tables in rowid order and the AUTOINCREMENT
    counters of [sqlite_sequence]. *)
Record db : Type := {
  conversations : list conversation;
  conversations_seq : Z;
  logs : list log;
  logs_seq : Z
}.

(** State left by [initializeTables] on a new file. *)
Definition empty_db : db :=
  {| conversations := []; conversations_seq := 0; logs := []; logs_seq := 0 |}.

Definition set_conversations (s : db) (rows : list conversation) (seq : Z) : db :=
  {| conversations := rows; conversations_seq := seq;
     logs := logs s; logs_seq := logs_seq s |}.

(** Columns of [conversations] as declared by [initializeTables], each
    with the flag "generated". *)
Definition conversations_columns : list (string * bool) :=
  [ ("id", false); ("question", false); ("answer", false);
    ("normalized_question", true); ("teach_count", false);
    ("is_active", false); ("created_at", false); ("updated_at", false) ].

Definition is_generated (column : string) : bool :=
  existsb (fun d => String.eqb (fst d) column && snd d) conversations_columns.

Fixpoint bound_value (columns : list string) (values : list string)
         (column : string) : option string :=
  match columns, values with
  | c :: cs, v :: vs =>
      if String.eqb c column then Some v else bound_value cs vs column
  | _, _ => None
  end.

(** The [DO UPDATE SET answer = excluded.answer, teach_count =
    teach_count + 1, updated_at = CURRENT_TIMESTAMP] clause.  The trigger
    [update_conversations_timestamp] writes the same time stamp again. *)
Definition do_update (new_answer : string) (now : Z) (r : conversation)
  : conversation :=
  {| row_id := row_id r; question := question r; answer := new_answer;
     teach_count := teach_count r + 1; is_active := is_active r;
     created_at := created_at r; updated_at := now |}.

(** Row built by [INSERT] from the column defaults
    ([teach_count] 1, [is_active] 1, both time stamps CURRENT_TIMESTAMP). *)
Definition fresh_row (new_id : Z) (q a : string) (now : Z) : conversation :=
  {| row_id := new_id; question := q; answer := a; teach_count := 1;
     is_active := true; created_at := now; updated_at := now |}.

Definition conflicts (key : string) (r : conversation) : bool :=
  String.eqb (normalized_question r) key.

(** [INSERT INTO conversations (columns) VALUES (values)
     ON CONFLICT(normalized_question) DO UPDATE SET ... RETURNING *].
    A generated column can be read but not written: the engine refuses
    to prepare an INSERT whose column list names one ("cannot INSERT into
    generated column").  Otherwise the row is inserted, or the row that
    holds the same [normalized_question] (UNIQUE, over active and
    inactive rows alike) is updated. *)
Definition insert_on_conflict_do_update
           (columns values : list string) (now : Z) (s : db)
  : result conversation * db :=
  match List.find is_generated columns with
  | Some c => (Rejected (CannotInsertIntoGeneratedColumn c), s)
  | None =>
      match bound_value columns values "question",
            bound_value columns values "answer" with
      | None, _ => (Rejected (NotNullConstraintFailed "question"), s)
      | _, None => (Rejected (NotNullConstraintFailed "answer"), s)
      | Some q, Some a =>
          let key := Text.LOWER (Text.TRIM q) in
          let seq := conversations_seq s + 1 in
          match List.find (conflicts key) (conversations s) with
          | Some old =>
              let rows :=
                map (fun r => if conflicts key r then do_update a now r else r)
                    (conversations s) in
              (Resolved (do_update a now old), set_conversations s rows seq)
          | None =>
              let row := fresh_row seq q a now in
              (Resolved row,
               set_conversations s (conversations s ++ [row]) seq)
          end
      end
  end.

(** [ORDER BY teach_count DESC].  SQL leaves the order of rows with equal
    counts open; here they keep their scan (rowid) order. *)
Fixpoint insert_desc (r : conversation) (l : list conversation)
  : list conversation :=
  match l with
  | [] => [r]
  | x :: l' =>
      if teach_count r <=? teach_count x then x :: insert_desc r l'
      else r :: x :: l'
  end.

Definition order_by_teach_count_desc (l : list conversation)
  : list conversation :=
  fold_left (fun acc r => insert_desc r acc) l [].

(** A number bound to LIMIT or OFFSET.  The driver binds a JavaScript
    number outside the int32 range as a double, and the engine takes a
    double there only when it is integral and lies strictly between -2^63
    and 2^63; anything else is a "datatype mismatch". *)
Definition must_be_int (n : Z) : bool := (- 2 ^ 63 <? n) && (n <? 2 ^ 63).

(** [LIMIT limit OFFSET offset]: a negative limit means no limit, a
    negative offset counts as zero. *)
Definition limit_offset {A : Type} (limit offset : Z) (l : list A) : list A :=
  let rest := drop (Z.to_nat offset) l in
  if limit <? 0 then rest else take (Z.to_nat limit) rest.

(** Aggregate [MAX]: NULL on no row. *)
Definition MAX (l : list Z) : option Z :=
  match l with
  | [] => None
  | x :: l' => Some (fold_left Z.max l' x)
  end.

Definition SUM (l : list Z) : Z := fold_right Z.add 0 l.

(** Aggregate [AVG]: NULL on no row, otherwise sum over count, kept as an
    exact fraction (the engine rounds it to a double). *)
Definition AVG (l : list Z) : option Q :=
  match l with
  | [] => None
  | _ :: _ => Some (SUM l # Pos.of_nat (length l))
  end.

End Sqlite.

(** ** Class [Database] of [database.js] *)

Module Database.
Import Sqlite.

(** [findResponse(question)]: [SELECT * FROM conversations WHERE
    normalized_question = ? AND is_active = 1 LIMIT 1]; [db.get] yields
    the first row, or [undefined] ([None]) when there is none. *)
Definition findResponse (q : string) (s : db) : result (option conversation) :=
  let normalizedQuestion := Text.trim (Text.toLowerCase q) in
  Resolved
    (List.find
       (fun r => String.eqb (normalized_question r) normalizedQuestion
                 && is_active r)
       (conversations s)).

(** [upsertResponse(question, answer)]: the INSERT lists the columns
    [question], [answer] and [normalized_question] and binds the
    JavaScript-normalized question to the third. *)
Definition upsertResponse (q a : string) (now : Z) (s : db)
  : result conversation * db :=
  let normalizedQuestion := Text.trim (Text.toLowerCase q) in
  insert_on_conflict_do_update
    ["question"; "answer"; "normalized_question"]
    [q; a; normalizedQuestion] now s.

(** [logInteraction(question, response, isTaught, userAgent, ipAddress,
    responseTime)]: one INSERT into [logs]; resolves to [lastID]. *)
Definition logInteraction (q : string) (resp : option string) (isTaught : bool)
           (userAgent ipAddress : string) (responseTime : Z)
           (now : Z) (s : db) : result Z * db :=
  let new_id := logs_seq s + 1 in
  let row := {| log_id := new_id; log_question := q; response := resp;
                is_taught := isTaught; response_time_ms := responseTime;
                user_agent := userAgent; ip_address := ipAddress;
                timestamp := now |} in
  (Resolved new_id,
   {| conversations := conversations s;
      conversations_seq := conversations_seq s;
      logs := (logs s ++ [row])%list; logs_seq := new_id |}).

(** Row returned by the query of [getStats]. *)
Record stats : Type := {
  total_responses : Z;
  total_interactions : Z;
  taught_responses : Z;
  last_taught : option Z;
  avg_response_time : option Q
}.

Definition getStats (s : db) : result stats :=
  Resolved
    {| total_responses := Z.of_nat (length (conversations s));
       total_interactions := Z.of_nat (length (logs s));
       taught_responses :=
         Z.of_nat (length (List.filter is_taught (logs s)));
       last_taught := MAX (map created_at (conversations s));
       avg_response_time :=
         AVG (List.filter (fun t => 0 <? t) (map response_time_ms (logs s))) |}.

(** The WHERE clause of [searchResponses], [a LIKE ? OR b LIKE ? AND
    is_active = 1]: AND binds tighter than OR. *)
Definition search_where (pattern : string) (r : conversation) : bool :=
  Text.LIKE (normalized_question r) pattern
  || (Text.LIKE (answer r) pattern && is_active r).

(** The query of [searchResponses] with its four parameters bound:
    [SELECT * FROM conversations WHERE normalized_question LIKE ? OR answer
     LIKE ? AND is_active = 1 ORDER BY teach_count DESC LIMIT ? OFFSET ?].
    The engine first checks the limit, ends at once with no row on a limit
    of zero, then checks the offset; scanning a row evaluates LIKE, which
    refuses a pattern that is too long. *)
Definition select_like (pattern : string) (limit offset : Z) (s : db)
  : result (list conversation) :=
  if negb (must_be_int limit) then Rejected DatatypeMismatch
  else if limit =? 0 then Resolved []
  else if negb (must_be_int offset) then Rejected DatatypeMismatch
  else
    match conversations s with
    | [] => Resolved []
    | _ :: _ =>
        if Text.pattern_too_complex pattern then Rejected LikePatternTooComplex
        else
          Resolved
            (limit_offset limit offset
               (order_by_teach_count_desc
                  (List.filter (search_where pattern) (conversations s))))
    end.

(** [searchResponses(searchTerm, limit, offset)]. *)
Definition searchResponses (searchTerm : string) (limit offset : Z) (s : db)
  : result (list conversation) :=
  let normalizedSearch :=
    "%" ++ Text.trim (Text.toLowerCase searchTerm) ++ "%" in
  select_like normalizedSearch limit offset s.

(** The eight question/answer pairs of [seedDefaultData] (the two emoji,
    which lie above U+00FF, are left out of the answers). *)
Definition seed_rows : list (string * string) :=
  [ ("hello", "Hello! How are you today?");
    ("hi", "Hi there! Nice to meet you!");
    ("how are you", "I'm doing great! Thanks for asking!");
    ("what is your name", "I'm SimSimi, your friendly chatbot!");
    ("bye", "Goodbye! See you again soon!");
    ("thank you", "You're welcome!");
    ("good morning", "Good morning! Have a wonderful day!");
    ("good night", "Good night! Sweet dreams!") ].

(** [seedDefaultData]: upserts the pairs in turn inside one [try]; the
    first rejection leaves the loop and is only logged. *)
Fixpoint seed (rows : list (string * string)) (now : Z) (s : db) : db :=
  match rows with
  | [] => s
  | (q, a) :: rest =>
      match upsertResponse q a now s with
      | (Resolved _, s') => seed rest now s'
      | (Rejected _, s') => s'
      end
  end.

Definition seedDefaultData (now : Z) (s : db) : db := seed seed_rows now s.

End Database.

(** ** The router of [routes/simsimi.js] *)

Module Routes.
Import Sqlite Database.

(** What the environment supplies while one request is served. *)
Record env : Type := {
  req_ip : string;                 (* req.ip, empty when unset *)
  remote_address : string;         (* req.connection.remoteAddress *)
  header_user_agent : string;      (* req.headers['user-agent'], empty when unset *)
  date_now : Z;                    (* Date.now() read by rateLimit, in ms *)
  start_time : Z;                  (* Date.now() before the store call *)
  end_time : Z;                    (* Date.now() after the store call *)
  math_random : Q;                 (* Math.random() *)
  current_timestamp : Z            (* CURRENT_TIMESTAMP of the engine *)
}.

(** [a || b] on strings. *)
Definition or_else (a b : string) : string := if Text.truthy a then a else b.

Definition RATE_LIMIT : nat := 100.
Definition RATE_LIMIT_WINDOW : Z := 60000.

Inductive rate_outcome : Type :=
| Limited (retryAfter : option Z)
| Next (remaining : Z).

(** [Math.ceil(x / 1000)] for an integer [x]. *)
Definition ceil_div_1000 (x : Z) : Z := - ((- x) / 1000).

(** The middleware [rateLimit] on the map [requestCounts]. *)
Definition rateLimit (ip : string) (now : Z) (requestCounts : gmap string (list Z))
  : rate_outcome * gmap string (list Z) :=
  let windowStart := now - RATE_LIMIT_WINDOW in
  let cleaned :=
    match requestCounts !! ip with
    | Some times =>
        <[ip := List.filter (fun time => windowStart <? time) times]> requestCounts
    | None => requestCounts
    end in
  let requests : list Z := default [] (cleaned !! ip) in
  if (RATE_LIMIT <=? length requests)%nat then
    (Limited ((fun first => ceil_div_1000 (first + RATE_LIMIT_WINDOW - now))
                <$> head requests),
     cleaned)
  else
    let requests' : list Z := (requests ++ [now])%list in
    (Next (Z.of_nat RATE_LIMIT - Z.of_nat (length requests')),
     <[ip := requests']> cleaned).

(** The five fallback answers of the ask route. *)
Definition defaultResponses : list string :=
  [ "I don't know how to respond to that yet. Can you teach me?";
    "Hmm, I'm not sure about that one. Want to teach me the answer?";
    "That's a new one for me! What should I say to that?";
    "I'm still learning! Could you teach me how to respond to that?";
    "I don't have an answer for that. Would you like to teach me?" ].

(** [arr[Math.floor(x)]]: [undefined] outside the array. *)
Definition index_floor {A : Type} (arr : list A) (x : Q) : option A :=
  let i := Qfloor x in
  if i <? 0 then None else arr !! Z.to_nat i.

Inductive reply : Type :=
| BadRequest (message : string)                              (* 400 *)
| TooManyRequests (retryAfter : option Z)                    (* 429 *)
| InternalServerError (message : string)                     (* 500 *)
| AskTaught (q answer_text : string) (count : Z) (ms : Z)    (* 200, is_taught *)
| AskUntaught (q : string) (fallback : option string) (ms : Z)
                                                (* 200, needs_teaching *)
| TeachCreated (row : conversation) (ms : Z)                 (* 201 *)
| StatsReport (responses interactions taught : Z)
              (latest : option Z) (avg_ms : Z)                 (* 200 *)
| SearchReport (results : list conversation) (page limit : Z)
               (has_more : bool) (term : string)             (* 200 *)
| Documentation                                              (* 200 *)
| Health.                                                    (* 200 *)

(** [!question || question.trim() === ''] of the ask and search routes. *)
Definition missing_or_blank (q : option string) : bool :=
  match q with
  | None => true
  | Some text => negb (Text.truthy text) || String.eqb (Text.trim text) ""
  end.

(** [!value] of the teach route. *)
Definition missing_or_empty (v : option string) : bool :=
  match v with
  | None => true
  | Some text => negb (Text.truthy text)
  end.

(** [router.get('/ask')]. *)
Definition ask (q : option string) (e : env) (s : db) : reply * db :=
  match q with
  | Some question =>
      if missing_or_blank q then
        (BadRequest "Question parameter (q) is required", s)
      else
        let responseTime := end_time e - start_time e in
        match findResponse question s with
        | Rejected _ =>
            (InternalServerError
               "Something went wrong while processing your request", s)
        | Resolved found =>
            match logInteraction question (answer <$> found)
                    (bool_decide (is_Some found))
                    (or_else (header_user_agent e) "")
                    (or_else (req_ip e) "")
                    responseTime (current_timestamp e) s with
            | (Rejected _, s') =>
                (InternalServerError
                   "Something went wrong while processing your request", s')
            | (Resolved _, s') =>
                match found with
                | Some row =>
                    (AskTaught question (answer row) (teach_count row)
                       responseTime, s')
                | None =>
                    (AskUntaught question
                       (index_floor defaultResponses
                          (math_random e
                           * inject_Z (Z.of_nat (length defaultResponses))))
                       responseTime, s')
                end
            end
        end
  | None => (BadRequest "Question parameter (q) is required", s)
  end.

(** [router.post('/teach')]. *)
Definition teach (question answer : option string) (e : env) (s : db)
  : reply * db :=
  match question, answer with
  | Some q, Some a =>
      if missing_or_empty question || missing_or_empty answer then
        (BadRequest "Both question and answer are required", s)
      else if (500 <? Text.js_length q) || (1000 <? Text.js_length a) then
        (BadRequest
           "Question or answer too long. Max 500 chars for question, 1000 for answer",
         s)
      else
        let responseTime := end_time e - start_time e in
        match upsertResponse q a (current_timestamp e) s with
        | (Rejected _, s') =>
            (InternalServerError "Failed to save the response", s')
        | (Resolved row, s') =>
            match logInteraction q (Some a) true
                    (or_else (header_user_agent e) "")
                    (or_else (req_ip e) "")
                    responseTime (current_timestamp e) s' with
            | (Rejected _, s'') =>
                (InternalServerError "Failed to save the response", s'')
            | (Resolved _, s'') => (TeachCreated row responseTime, s'')
            end
        end
  | _, _ => (BadRequest "Both question and answer are required", s)
  end.

(** [x || d] on a number: zero is falsy. *)
Definition nonzero_or (x d : Z) : Z := if x =? 0 then d else x.

(** [Math.round(x)]: nearest integer, halves upwards. *)
Definition round (x : Q) : Z := Qfloor (x + (1 # 2)).

(** [router.get('/stats')]. *)
Definition stats_route (s : db) : reply * db :=
  match getStats s with
  | Rejected _ => (InternalServerError "Failed to retrieve statistics", s)
  | Resolved st =>
      (StatsReport (nonzero_or (total_responses st) 0)
         (nonzero_or (total_interactions st) 0)
         (nonzero_or (taught_responses st) 0)
         (last_taught st)
         (round (default 0%Q (avg_response_time st))), s)
  end.

(** The Number nearest to an integer: binary64 keeps 53 significant
    bits and rounds to nearest, ties to even.  (Beyond the largest finite
    double the Number is an infinity; the value kept here is then as far
    outside the range the engine accepts as an infinity is.) *)
Definition to_double (z : Z) : Z :=
  let a := Z.abs z in
  let shift := Z.log2 a - 52 in
  if shift <=? 0 then z
  else
    let unit := 2 ^ shift in
    let q := a / unit in
    let r := a mod unit in
    let half := unit / 2 in
    let q' := if (half <? r) || ((r =? half) && Z.odd q) then q + 1 else q in
    Z.sgn z * (q' * unit).

(** [parseInt(text) || d]: the argument is the integer that [parseInt]
    reads, [None] when it reads none (NaN). *)
Definition parsed_or (x : option Z) (d : Z) : Z :=
  nonzero_or (to_double (default 0 x)) d.

(** [router.get('/search')]. *)
Definition search (q : option string) (limit_param page_param : option Z)
           (s : db) : reply * db :=
  let limit := parsed_or limit_param 10 in
  let page := parsed_or page_param 1 in
  let offset := to_double (to_double (page - 1) * limit) in
  match q with
  | Some searchTerm =>
      if missing_or_blank q then
        (BadRequest "Search term (q) is required", s)
      else
        match searchResponses searchTerm limit offset s with
        | Rejected _ => (InternalServerError "Failed to search responses", s)
        | Resolved results =>
            (SearchReport results page limit
               (Z.of_nat (length results) =? limit) searchTerm, s)
        end
  | None => (BadRequest "Search term (q) is required", s)
  end.

Inductive request : Type :=
| GetRoot
| GetAsk (q : option string)
| PostTeach (question answer : option string)
| GetStats
| GetSearch (q : option string) (limit page : option Z)
| GetHealth.

Definition dispatch (r : request) (e : env) (s : db) : reply * db :=
  match r with
  | GetRoot => (Documentation, s)
  | GetAsk q => ask q e s
  | PostTeach q a => teach q a e s
  | GetStats => stats_route s
  | GetSearch q l p => search q l p s
  | GetHealth => (Health, s)
  end.

(** The module state: the store and the in-memory map [requestCounts]. *)
Record app : Type := {
  store : db;
  requestCounts : gmap string (list Z)
}.

Definition client (e : env) : string := or_else (req_ip e) (remote_address e).

(** [router.use(rateLimit)] in front of every route. *)
Definition router (r : request) (e : env) (a : app) : reply * app :=
  match rateLimit (client e) (date_now e) (requestCounts a) with
  | (Limited retry, counts) =>
      (TooManyRequests retry, {| store := store a; requestCounts := counts |})
  | (Next _, counts) =>
      let '(resp, s') := dispatch r e (store a) in
      (resp, {| store := s'; requestCounts := counts |})
  end.

(** Requests served one after the other. *)
Fixpoint serve (trace : list (request * env)) (a : app) : list reply * app :=
  match trace with
  | [] => ([], a)
  | (r, e) :: rest =>
      let '(resp, a') := router r e a in
      let '(resps, a'') := serve rest a' in
      (resp :: resps, a'')
  end.

End Routes.

(** ** Vocabulary of the specification *)

Module Spec.
Import Sqlite Database Routes.

(** [normalize(question)] in the words of the specification: lower-case
    of the trimmed text. *)
Definition normalize (q : string) : string := Text.toLowerCase (Text.trim q).

(** Two texts that differ only by letter case and by white space at
    either end. *)
Inductive same_question : string -> string -> Prop :=
| same_refl q : same_question q q
| same_sym q1 q2 : same_question q1 q2 -> same_question q2 q1
| same_trans q1 q2 q3 :
    same_question q1 q2 -> same_question q2 q3 -> same_question q1 q3
| same_leading c q :
    Text.js_is_space c = true -> same_question q (String c q)
| same_trailing c q :
    Text.js_is_space c = true -> same_question q (q ++ String c "")
| same_case c d q1 q2 :
    Text.js_lower_char c = Text.js_lower_char d ->
    same_question (q1 ++ String c q2) (q1 ++ String d q2).

(** Number and total of the recorded response times that are strictly
    positive, counted entry by entry. *)
Fixpoint positive_count (l : list log) : nat :=
  match l with
  | [] => 0%nat
  | x :: l' =>
      if 0 <? response_time_ms x then S (positive_count l') else positive_count l'
  end.

Fixpoint positive_total (l : list log) : Z :=
  match l with
  | [] => 0
  | x :: l' =>
      if 0 <? response_time_ms x
      then response_time_ms x + positive_total l' else positive_total l'
  end.

(** [m] is the greatest creation time among the rows. *)
Definition latest_creation (rows : list conversation) (m : Z) : Prop :=
  (exists r, In r rows /\ created_at r = m)
  /\ forall r, In r rows -> created_at r <= m.

(** Every row re-taught at time [now] with answer [a]. *)
Definition retaught (a : string) (now : Z) (s : db) : db :=
  set_conversations s (map (do_update a now) (conversations s)) (conversations_seq s).

(** The active rows filed under a normalized question. *)
Definition active_for (key : string) (rows : list conversation) : list conversation :=
  List.filter (fun r => is_active r && String.eqb (normalized_question r) key) rows.

(** At most one active entry per normalized question. *)
Definition at_most_one_active (s : db) : Prop :=
  forall key, (length (active_for key (conversations s)) <= 1)%nat.

(** The operations of the store, each run at a given engine time. *)
Inductive operation : Type :=
| Find (q : string)
| Upsert (q a : string)
| Search (term : string) (limit offset : Z)
| Stats
| RecordLog (q : string) (resp : option string) (isTaught : bool)
          (userAgent ipAddress : string) (responseTime : Z).

(** State after one operation; the three queries return a value and leave
    the store as it is. *)
Definition perform (o : operation) (now : Z) (s : db) : db :=
  match o with
  | Find q => match findResponse q s with _ => s end
  | Upsert q a => snd (upsertResponse q a now s)
  | Search term limit offset =>
      match searchResponses term limit offset s with _ => s end
  | Stats => match getStats s with _ => s end
  | RecordLog q resp isTaught userAgent ipAddress responseTime =>
      snd (logInteraction q resp isTaught userAgent ipAddress responseTime now s)
  end.

Definition perform_all (ops : list (operation * Z)) (s : db) : db :=
  fold_left (fun acc o => perform (fst o) (snd o) acc) ops s.

(** No active row is filed under the normalized form of [q]. *)
Definition no_active_match (q : string) (s : db) : Prop :=
  forall r, In r (conversations s) -> is_active r = true ->
            normalized_question r <> normalize q.

(** The "not found" outcome of an ask: a fallback answer out of the fixed
    list, exactly one log entry appended, with no response and not
    taught, and the conversations left as they were. *)
Definition not_found_outcome (q : string) (e : env) (s : db) : Prop :=
  exists msg ms s',
    ask (Some q) e s = (AskUntaught q (Some msg) ms, s')
    /\ In msg defaultResponses
    /\ (exists entry, logs s' = (logs s ++ [entry])%list
                      /\ response entry = None /\ is_taught entry = false)
    /\ conversations s' = conversations s.

(** Teach counts never increase along the list. *)
Definition descending (l : list conversation) : Prop :=
  StronglySorted (fun x y => teach_count y <= teach_count x) l.

(** A reply of the rate limiter itself. *)
Definition limited (r : reply) : bool :=
  match r with
  | TooManyRequests _ => true
  | _ => false
  end.






(** The time stamps kept for [ip] in [requestCounts]. *)
Definition requests_of (counts : gmap string (list Z)) (ip : string) : list Z :=
  default [] (counts !! ip).

(** Arrival times of [ip] in a history of accepted requests. *)
Definition times_of (ip : string) (hist : list (string * Z)) : list Z :=
  map snd (List.filter (fun x => String.eqb (fst x) ip) hist).

(** What [requestCounts] remembers of the accepted requests once every
    request up to time [T] has been served: for each address, the
    accepted arrivals after a cut that lies a full window before [T]. *)
Definition limiter_inv (counts : gmap string (list Z)) (hist : list (string * Z))
           (T : Z) : Prop :=
  forall ip, exists cut,
    cut <= T - RATE_LIMIT_WINDOW
    /\ requests_of counts ip = List.filter (fun t => cut <? t) (times_of ip hist).


End Spec.

(** ** Sample stores and environments *)

Module Samples.
Import Sqlite Database Routes.

(** One entry taught as "hello". *)
Definition one_hello : db :=
  {| conversations := [fresh_row 1 "hello" "Hi there!" 0];
     conversations_seq := 1; logs := []; logs_seq := 0 |}.

(** Entry 1 is soft-deleted, entry 2 is active. *)
Definition archived_hello : db :=
  {| conversations :=
       [ {| row_id := 1; question := "hello"; answer := "Hi there!";
            teach_count := 3; is_active := false;
            created_at := 5; updated_at := 9 |};
         fresh_row 2 "bye" "Goodbye!" 7 ];
     conversations_seq := 2; logs := []; logs_seq := 0 |}.

Definition quiet_env : env :=
  {| req_ip := "10.0.0.1"; remote_address := "10.0.0.1";
     header_user_agent := "curl"; date_now := 1000;
     start_time := 1000; end_time := 1002;
     math_random := 3 # 10; current_timestamp := 1 |}.

Definition log_of (ms : Z) : log :=
  {| log_id := 0; log_question := "q"; response := None; is_taught := false;
     response_time_ms := ms; user_agent := ""; ip_address := ""; timestamp := 0 |}.

(** Entry created at 5 and updated at 9, entry created at 7; response
    times 0, 4, -1 and 6. *)
Definition measured : db :=
  {| conversations := conversations archived_hello; conversations_seq := 2;
     logs := [log_of 0; log_of 4; log_of (-1); log_of 6]; logs_seq := 4 |}.

(** The same client calling [n] times within one millisecond. *)
Definition burst (n : nat) : list (request * env) := repeat (GetRoot, quiet_env) n.

Definition new_app : app := {| store := empty_db; requestCounts := ∅ |}.

(** [n] copies of one character. *)
Fixpoint copies (n : nat) (c : ascii) : string :=
  match n with
  | O => EmptyString
  | S n' => String c (copies n' c)
  end.

End Samples.

(** ** Opening the database: [connect] and [_connectWithRetry] *)

Module Connection.
Import Sqlite Database.

(** The fields of a [Database] object that [connect] reads and writes. *)
Record connection : Type := {
  has_db : bool;          (* this.db !== null *)
  isConnected : bool;
  retryCount : nat;
  maxRetries : nat
}.

(** State set by the constructor. *)
Definition new_connection : connection :=
  {| has_db := false; isConnected := false; retryCount := 0; maxRetries := 3 |}.

Inductive settlement : Type :=
| Connected          (* the promise resolves *)
| ConnectFailed.     (* the promise rejects with the open error *)

(** What one call of [connect] leaves behind: how the promise settles, the
    object, the number of open attempts made, the time slept between
    attempts and the database file. *)
Record outcome : Type := {
  settled : settlement;
  object : connection;
  attempts : nat;
  waited_ms : Z;
  file : db
}.

(** [_connectWithRetry].  [opens i] tells whether the [i]-th open attempt
    of this call succeeds.  A failed attempt increments [retryCount] and
    is retried after [1000 * retryCount] ms while [retryCount <
    maxRetries]; a successful one sets [isConnected], creates the tables
    if they do not exist (no change to a store that has them) and seeds
    the default data.  [fuel] bounds the recursion depth. *)
Fixpoint connectWithRetry (fuel : nat) (opens : nat -> bool) (made : nat)
         (waited : Z) (now : Z) (c : connection) (s : db) : option outcome :=
  match fuel with
  | O => None
  | S fuel' =>
      if opens made then
        Some {| settled := Connected;
                object := {| has_db := true; isConnected := true;
                             retryCount := retryCount c;
                             maxRetries := maxRetries c |};
                attempts := S made; waited_ms := waited;
                file := seedDefaultData now s |}
      else
        let c' := {| has_db := true; isConnected := isConnected c;
                     retryCount := S (retryCount c);
                     maxRetries := maxRetries c |} in
        if (retryCount c' <? maxRetries c')%nat then
          connectWithRetry fuel' opens (S made)
            (waited + 1000 * Z.of_nat (retryCount c')) now c' s
        else
          Some {| settled := ConnectFailed; object := c'; attempts := S made;
                  waited_ms := waited; file := s |}
  end.

(** [connect()]: one call of [_connectWithRetry]; the rejection is logged
    and thrown again. *)
Definition connect (opens : nat -> bool) (now : Z) (c : connection) (s : db)
  : option outcome :=
  connectWithRetry (S (maxRetries c - retryCount c)) opens 0 0 now c s.

End Connection.

(** ** Further vocabulary *)

Module Notions.
Import Sqlite Database Routes Spec.

Fixpoint all_chars (p : ascii -> bool) (s : string) : bool :=
  match s with
  | EmptyString => true
  | String c s' => p c && all_chars p s'
  end.

(** The printable ASCII characters, U+0020..U+007E. *)
Definition printable (c : ascii) : bool :=
  (32 <=? Text.code c) && (Text.code c <=? 126).

(** The UNIQUE constraint of the schema on [normalized_question]. *)
Definition keys_unique (s : db) : Prop :=
  List.NoDup (map normalized_question (conversations s)).

(** No log row carries an id above the AUTOINCREMENT counter. *)
Definition log_ids_bounded (s : db) : Prop :=
  List.Forall (fun l => log_id l <= logs_seq s) (logs s).

(** A LIKE wildcard. *)
Definition wildcard (c : ascii) : bool :=
  Ascii.eqb c "%"%char || Ascii.eqb c "_"%char.

(** [s] contains [t] as a substring, up to the case of ASCII letters. *)
Definition contains_nocase (s t : string) : Prop :=
  exists pre m post, s = pre ++ m ++ post /\ Text.LOWER m = Text.LOWER t.

(** The replies of the ask route that answer the question. *)
Definition answers_ask (r : reply) : bool :=
  match r with
  | AskTaught _ _ _ _ | AskUntaught _ _ _ => true
  | _ => false
  end.

(** Number of requests of [ip] in a trace. *)
Definition requests_from (ip : string) (trace : list (request * env)) : nat :=
  length (List.filter (fun x => String.eqb (client (snd x)) ip) trace).

(** Replies to the requests of [ip], in order. *)
Fixpoint replies_to (ip : string) (trace : list (request * env))
         (replies : list reply) : list reply :=
  match trace, replies with
  | (_, e) :: trace', r :: replies' =>
      if String.eqb (client e) ip then r :: replies_to ip trace' replies'
      else replies_to ip trace' replies'
  | _, _ => []
  end.

(** No address has more than [RATE_LIMIT] stamps on record. *)
Definition counts_bounded (counts : gmap string (list Z)) : Prop :=
  forall ip, (length (requests_of counts ip) <= RATE_LIMIT)%nat.

(** A text that is empty or starts with a character outside [ws]. *)
Definition starts_clean (ws : ascii -> bool) (s : string) : Prop :=
  match s with
  | EmptyString => True
  | String c _ => ws c = false
  end.

(** The result list of a search reply. *)
Definition report_results (r : reply) : option (list conversation) :=
  match r with
  | SearchReport results _ _ _ _ => Some results
  | _ => None
  end.

Definition is_percent (c : ascii) : bool := Ascii.eqb c "%"%char.

(** A character that LIKE reads literally: neither a wildcard nor the
    U+0000 at which the engine stops reading. *)
Definition literal (c : ascii) : bool :=
  negb (wildcard c) && negb (Text.code c =? 0).

(** One call of [upsertResponse] among several: question, answer and the
    engine time at which its statement runs. *)
Definition upsert_call (c : string * string * Z) : operation * Z :=
  (Upsert (fst (fst c)) (snd (fst c)), snd c).

End Notions.

(** * Properties *)

(** ** Text *)

Section TextFacts.
Import Text.

Lemma js_space_lower c : js_is_space (js_lower_char c) = js_is_space c.
Proof. destruct c as [[] [] [] [] [] [] [] []]; reflexivity. Qed.

Lemma map_chars_app f s1 s2 :
  map_chars f (s1 ++ s2) = map_chars f s1 ++ map_chars f s2.
Proof. induction s1 as [|c s1 IH]; simpl; [reflexivity | now rewrite IH]. Qed.

Section Trim.
Variable ws : ascii -> bool.

Lemma trimEnd_snoc s c : ws c = true -> trimEnd ws (s ++ String c "") = trimEnd ws s.
Proof.
  intros Hc. induction s as [|d s IH]; simpl.
  - now rewrite Hc.
  - now rewrite IH.
Qed.

Lemma trim_with_cons s c : ws c = true -> trim_with ws (String c s) = trim_with ws s.
Proof. intros Hc. unfold trim_with. simpl. now rewrite Hc. Qed.

Lemma trim_with_snoc s c : ws c = true -> trim_with ws (s ++ String c "") = trim_with ws s.
Proof.
  intros Hc. unfold trim_with. induction s as [|d s IH]; simpl.
  - now rewrite Hc.
  - destruct (ws d); [exact IH |].
    change (String d (s ++ String c "")) with (String d s ++ String c "").
    now apply trimEnd_snoc.
Qed.

Variable f : ascii -> ascii.
Hypothesis ws_f : forall c, ws (f c) = ws c.

Lemma trimStart_map s : trimStart ws (map_chars f s) = map_chars f (trimStart ws s).
Proof.
  induction s as [|c s IH]; simpl; [reflexivity |].
  rewrite ws_f. now destruct (ws c).
Qed.

Lemma trimEnd_map s : trimEnd ws (map_chars f s) = map_chars f (trimEnd ws s).
Proof.
  induction s as [|c s IH]; simpl; [reflexivity |].
  rewrite IH, ws_f.
  destruct (trimEnd ws s); simpl; [now destruct (ws c) | reflexivity].
Qed.

Lemma trim_with_map s : trim_with ws (map_chars f s) = map_chars f (trim_with ws s).
Proof. unfold trim_with. now rewrite trimStart_map, trimEnd_map. Qed.
End Trim.

(** The order of [toLowerCase] and [trim] does not matter. *)
Lemma trim_toLowerCase q : trim (toLowerCase q) = toLowerCase (trim q).
Proof. apply trim_with_map, js_space_lower. Qed.

Lemma normalize_same_question q1 q2 :
  Spec.same_question q1 q2 -> trim (toLowerCase q1) = trim (toLowerCase q2).
Proof.
  induction 1 as [q | q1 q2 _ IH | q1 q2 q3 _ IH1 _ IH2 | c q Hc | c q Hc
                 | c d q1 q2 Hcd].
  - reflexivity.
  - now symmetry.
  - now transitivity (trim (toLowerCase q2)).
  - unfold trim, toLowerCase. simpl. symmetry. apply trim_with_cons.
    now rewrite js_space_lower.
  - unfold trim, toLowerCase. rewrite map_chars_app. simpl. symmetry.
    apply trim_with_snoc. now rewrite js_space_lower.
  - unfold toLowerCase. rewrite !map_chars_app. simpl. now rewrite Hcd.
Qed.

End TextFacts.
Example toLowerCase_ex : Text.toLowerCase "  HeLLo " = "  hello ".
Proof. reflexivity. Qed.

Example trim_ex : Text.trim (String "009"%char "  hi there  ") = "hi there".
Proof. reflexivity. Qed.

Example TRIM_keeps_tab : Text.TRIM (String "009"%char " hi ") = String "009"%char " hi".
Proof. reflexivity. Qed.

Example LIKE_ex1 : Text.LIKE "say Hello there" "%hello%" = true.
Proof. reflexivity. Qed.

Example LIKE_ex2 : Text.LIKE "help" "%h_l%" = true.
Proof. reflexivity. Qed.

Example LIKE_ex3 : Text.LIKE "hi" "%hello%" = false.
Proof. reflexivity. Qed.


(** ** Lookup and search do not see case or outer white space *)

Section Insensitive.
Import Sqlite Database Spec Samples.

Lemma same_question_normalize q1 q2 :
  same_question q1 q2 -> normalize q1 = normalize q2.
Proof.
  intros H. unfold normalize. rewrite <- !trim_toLowerCase.
  now apply normalize_same_question.
Qed.

Lemma findResponse_by_key q s :
  findResponse q s
  = Resolved (List.find (fun r => String.eqb (normalized_question r) (normalize q)
                                  && is_active r)
                        (conversations s)).
Proof. unfold findResponse, normalize. now rewrite trim_toLowerCase. Qed.

Lemma same_Hello_padded : same_question "Hello" "  hello ".
Proof.
  apply same_trans with "hello".
  - exact (same_case "H" "h" "" "ello" eq_refl).
  - apply same_trans with " hello"; [now apply same_leading |].
    apply same_trans with "  hello"; [now apply same_leading |].
    exact (same_trailing " " "  hello" eq_refl).
Qed.

(** C4. For all question texts [q1], [q2] that differ only by letter case
    and by leading or trailing white space, [normalize] agrees on them and
    [findResponse] returns the same entry (or no entry for both); the
    result of [findResponse] is the first active row whose key equals
    [normalize q], so it depends on the question through [normalize q]
    alone. *)
Theorem findResponse_same_question (s : db) (q1 q2 : string) :
  same_question q1 q2 ->
  normalize q1 = normalize q2
  /\ findResponse q1 s = findResponse q2 s
  /\ findResponse q1 s
     = Resolved (List.find (fun r => String.eqb (normalized_question r) (normalize q1)
                                     && is_active r)
                           (conversations s)).
Proof.
  intros H. pose proof (same_question_normalize _ _ H) as Hn.
  split; [exact Hn |]. split; [| apply findResponse_by_key].
  rewrite !findResponse_by_key. now rewrite Hn.
Qed.

Lemma findResponse_same_question_witness :
  same_question "Hello" "  hello "
  /\ findResponse "Hello" one_hello = findResponse "  hello " one_hello
  /\ findResponse "Hello" one_hello = Resolved (Some (fresh_row 1 "hello" "Hi there!" 0)).
Proof.
  split; [exact same_Hello_padded |].
  destruct (findResponse_same_question one_hello "Hello" "  hello " same_Hello_padded)
    as (_ & Heq & Hkey).
  split; [exact Heq | rewrite Hkey; reflexivity].
Defined.

End Insensitive.


(** ** Statistics *)

Section Stats.
Import Sqlite Database Spec.

Lemma fold_max_ge l x : x <= fold_left Z.max l x.
Proof.
  revert x. induction l as [|y l IH]; intros x; simpl; [lia |].
  specialize (IH (Z.max x y)). lia.
Qed.

Lemma fold_max_upper l x y : In y l -> y <= fold_left Z.max l x.
Proof.
  revert x. induction l as [|z l IH]; intros x; simpl; [tauto |].
  intros [-> | Hy]; [| now apply IH].
  pose proof (fold_max_ge l (Z.max x y)). lia.
Qed.

Lemma fold_max_in l x : fold_left Z.max l x = x \/ In (fold_left Z.max l x) l.
Proof.
  revert x. induction l as [|z l IH]; intros x; simpl; [now left |].
  destruct (IH (Z.max x z)) as [H | H]; [| now right; right].
  rewrite H. destruct (Z.max_spec x z) as [[_ ->] | [_ ->]]; [right | ]; now left.
Qed.

Lemma MAX_spec l :
  match MAX l with
  | None => l = []
  | Some m => In m l /\ forall y, In y l -> y <= m
  end.
Proof.
  destruct l as [|x l]; simpl; [reflexivity |]. split.
  - destruct (fold_max_in l x) as [-> | H]; [now left | now right].
  - intros y [<- | Hy]; [apply fold_max_ge | now apply fold_max_upper].
Qed.

Lemma positive_times_length l :
  length (List.filter (fun t => 0 <? t) (map response_time_ms l)) = positive_count l.
Proof.
  induction l as [|x l IH]; simpl; [reflexivity |].
  destruct (0 <? response_time_ms x); simpl; now rewrite IH.
Qed.

Lemma positive_times_SUM l :
  SUM (List.filter (fun t => 0 <? t) (map response_time_ms l)) = positive_total l.
Proof.
  induction l as [|x l IH]; simpl; [reflexivity |].
  destruct (0 <? response_time_ms x); simpl; now rewrite IH.
Qed.

Lemma AVG_positive_times l :
  AVG (List.filter (fun t => 0 <? t) (map response_time_ms l))
  = match positive_count l with
    | O => None
    | S _ => Some (positive_total l # Pos.of_nat (positive_count l))
    end.
Proof.
  rewrite <- positive_times_length, <- positive_times_SUM.
  now destruct (List.filter _ _).
Qed.

(** C7. [getStats] resolves; its [last_taught] is the greatest
    [created_at] over all conversation rows (NULL exactly when the table
    is empty) and is left as it is when rows are re-taught at a later
    time, since [updated_at] plays no part; its [avg_response_time] is
    the total over the count of the log entries whose response time is
    strictly positive (NULL when there is none), so entries with a zero
    or negative time are left out. *)
Theorem getStats_last_taught_and_average (s : db) :
  exists st,
    getStats s = Resolved st
    /\ match last_taught st with
       | None => conversations s = []
       | Some m => latest_creation (conversations s) m
       end
    /\ (forall a now st',
          getStats (retaught a now s) = Resolved st' ->
          last_taught st' = last_taught st)
    /\ avg_response_time st
       = match positive_count (logs s) with
         | O => None
         | S _ => Some (positive_total (logs s) # Pos.of_nat (positive_count (logs s)))
         end.
Proof.
  eexists. split; [reflexivity |]. simpl. repeat split.
  - pose proof (MAX_spec (map created_at (conversations s))) as H.
    destruct (MAX (map created_at (conversations s))) as [m|].
    + destruct H as [Hin Hmax]. split.
      * apply in_map_iff in Hin. destruct Hin as (r & Hr & Hin). now exists r.
      * intros r Hr. apply Hmax. now apply in_map.
    + now destruct (conversations s).
  - intros a now st' [= <-]. simpl. now rewrite map_map.
  - apply AVG_positive_times.
Qed.

Example getStats_measured :
  getStats Samples.measured
  = Resolved {| total_responses := 2; total_interactions := 4;
                taught_responses := 0; last_taught := Some 7;
                avg_response_time := Some (10 # 2) |}.
Proof. reflexivity. Qed.

End Stats.


(** ** Insert-or-update and the uniqueness of active entries *)

Section Upsert.
Import Sqlite Database Spec Notions Samples.

Lemma filter_map_invariant {A : Type} (p : A -> bool) (f : A -> A) (l : list A) :
  (forall x, p (f x) = p x) ->
  length (List.filter p (map f l)) = length (List.filter p l).
Proof.
  intros H. induction l as [|x l IH]; simpl; [reflexivity |].
  rewrite H. destruct (p x); simpl; now rewrite IH.
Qed.

Lemma find_none_filter {A : Type} (p q : A -> bool) (l : list A) :
  List.find p l = None -> (forall x, q x = true -> p x = true) ->
  List.filter q l = [].
Proof.
  intros Hnone Hqp. induction l as [|x l IH]; simpl in *; [reflexivity |].
  destruct (p x) eqn:Hp; [discriminate |].
  destruct (q x) eqn:Hq; [| now apply IH].
  apply Hqp in Hq. congruence.
Qed.

(** The engine statement, whatever its column list, either keeps the
    number of active rows under a key or takes it from zero to one. *)
Lemma insert_on_conflict_active_count columns values now s key :
  let s' := snd (insert_on_conflict_do_update columns values now s) in
  length (active_for key (conversations s')) = length (active_for key (conversations s))
  \/ (length (active_for key (conversations s)) = 0%nat
      /\ length (active_for key (conversations s')) = 1%nat).
Proof.
  unfold insert_on_conflict_do_update.
  destruct (List.find is_generated columns); [now left |].
  destruct (bound_value columns values "question") as [q|]; [| now left].
  destruct (bound_value columns values "answer") as [a|]; [| now left].
  destruct (List.find (conflicts _) (conversations s)) eqn:Hfind; simpl.
  - left. unfold active_for. apply filter_map_invariant.
    intros r. now destruct (conflicts _ r).
  - unfold active_for. rewrite List.filter_app, length_app. simpl.
    change (normalized_question (fresh_row (conversations_seq s + 1) q a now))
      with (Text.LOWER (Text.TRIM q)).
    destruct (String.eqb_spec (Text.LOWER (Text.TRIM q)) key) as [Heq | Hne].
    + right. subst key. rewrite (find_none_filter _ _ _ Hfind).
      * split; reflexivity.
      * intros r Hr. unfold conflicts. now apply andb_prop in Hr.
    + left. simpl. lia.
Qed.

Lemma perform_active_count o now s key :
  length (active_for key (conversations (perform o now s)))
  = length (active_for key (conversations s))
  \/ (length (active_for key (conversations s)) = 0%nat
      /\ length (active_for key (conversations (perform o now s))) = 1%nat).
Proof.
  destruct o as [q | q a | term limit offset | | q resp t ua ip ms].
  2: exact (insert_on_conflict_active_count _ _ now s key).
  all: now left.
Qed.

Lemma perform_preserves o now s :
  at_most_one_active s -> at_most_one_active (perform o now s).
Proof.
  intros H key. specialize (H key).
  destruct (perform_active_count o now s key) as [-> | [_ ->]]; lia.
Qed.

(** The statement of [upsertResponse] is refused by the engine: its
    column list names the generated column [normalized_question]. *)
Lemma upsertResponse_rejected q a now s :
  upsertResponse q a now s
  = (Rejected (CannotInsertIntoGeneratedColumn "normalized_question"), s).
Proof. reflexivity. Qed.

Lemma keys_unique_at_most_one_active s :
  keys_unique s -> at_most_one_active s.
Proof.
  unfold keys_unique, at_most_one_active, active_for. intros Hnd key.
  induction (conversations s) as [|r l IH]; simpl in *; [lia |].
  apply List.NoDup_cons_iff in Hnd. destruct Hnd as [Hr Hnd]. specialize (IH Hnd).
  destruct (is_active r && String.eqb (normalized_question r) key) eqn:Hp;
    [| exact IH].
  apply andb_prop in Hp. destruct Hp as [_ Hk]. apply String.eqb_eq in Hk.
  assert (He : List.filter
                 (fun x => is_active x && String.eqb (normalized_question x) key) l
               = []).
  { clear IH Hnd. induction l as [|x l IHl]; simpl; [reflexivity |].
    destruct (String.eqb_spec (normalized_question x) key) as [Hx | Hx].
    - exfalso. apply Hr. left. congruence.
    - rewrite andb_false_r. apply IHl. intros Hin. apply Hr. now right. }
  rewrite He. simpl. lia.
Qed.

Lemma NoDup_snoc {A : Type} (l : list A) x :
  List.NoDup l -> ~ In x l -> List.NoDup (l ++ [x]).
Proof.
  induction l as [|y l IH]; intros Hnd Hx; simpl.
  - constructor; [intros [] | constructor].
  - apply List.NoDup_cons_iff in Hnd. destruct Hnd as [Hy Hnd].
    constructor.
    + intros Hin. apply in_app_iff in Hin. destruct Hin as [Hin | [<- | []]].
      * now apply Hy.
      * apply Hx. now left.
    + apply IH; [exact Hnd |]. intros Hin. apply Hx. now right.
Qed.

(** The UNIQUE constraint survives the engine statement, whatever its
    column list: a conflicting row is updated in place, a row is added
    only under a key that no row holds. *)
Lemma insert_on_conflict_keys_unique columns values now s :
  keys_unique s ->
  keys_unique (snd (insert_on_conflict_do_update columns values now s)).
Proof.
  unfold keys_unique, insert_on_conflict_do_update. intros Hnd.
  destruct (List.find is_generated columns); [exact Hnd |].
  destruct (bound_value columns values "question") as [q|]; [| exact Hnd].
  destruct (bound_value columns values "answer") as [a|]; [| exact Hnd].
  destruct (List.find (conflicts _) (conversations s)) eqn:Hfind; simpl.
  - rewrite map_map.
    replace (map (fun r => normalized_question
                             (if conflicts (Text.LOWER (Text.TRIM q)) r
                              then do_update a now r else r))
                 (conversations s))
      with (map normalized_question (conversations s)); [exact Hnd |].
    apply map_ext. intros r. now destruct (conflicts _ r).
  - rewrite map_app. apply NoDup_snoc; [exact Hnd |].
    change (map normalized_question
              [fresh_row (conversations_seq s + 1) q a now])
      with [Text.LOWER (Text.TRIM q)].
    intros Hin. apply in_map_iff in Hin. destruct Hin as (r & Hk & Hr).
    pose proof (find_none _ _ Hfind r Hr) as Hc. unfold conflicts in Hc.
    apply String.eqb_neq in Hc. contradiction.
Qed.

Lemma perform_keys_unique o now s : keys_unique s -> keys_unique (perform o now s).
Proof.
  destruct o as [q | q a | term limit offset | | q resp t ua ip ms]; intros H.
  2: exact (insert_on_conflict_keys_unique _ _ now s H).
  - exact H.
  - unfold perform. now destruct (searchResponses term limit offset s).
  - exact H.
  - exact H.
Qed.

Lemma perform_all_keys_unique ops s : keys_unique s -> keys_unique (perform_all ops s).
Proof.
  revert s. induction ops as [|[o now] ops IH]; intros s H; [exact H |].
  simpl. apply IH. now apply perform_keys_unique.
Qed.

(** C2. Every store that obeys the UNIQUE constraint of the schema on
    [normalized_question] holds at most one active entry per normalized
    question, and any sequence of find, upsert, search, stats and
    log-record operations leaves such a store: the constraint and the
    bound both hold afterwards.  An upsert on the resulting store keeps
    the bound, and leaves exactly one active entry under a key that has
    one.  The same holds for the engine's insert-or-update with any
    column list, where a conflicting row is updated in place and a new row
    is added only under a key that no row holds. *)
Theorem at_most_one_active_invariant (ops : list (operation * Z)) (s : db) :
  keys_unique s ->
  keys_unique (perform_all ops s)
  /\ at_most_one_active (perform_all ops s)
  /\ (forall q a now,
        at_most_one_active (snd (upsertResponse q a now (perform_all ops s)))
        /\ forall key,
             length (active_for key (conversations (perform_all ops s))) = 1%nat ->
             length (active_for key
                       (conversations
                          (snd (upsertResponse q a now (perform_all ops s)))))
             = 1%nat)
  /\ (forall columns values now,
        keys_unique
          (snd (insert_on_conflict_do_update columns values now (perform_all ops s)))
        /\ at_most_one_active
             (snd (insert_on_conflict_do_update columns values now
                     (perform_all ops s)))).
Proof.
  intros H. pose proof (perform_all_keys_unique ops s H) as Hu.
  split; [exact Hu |]. split; [now apply keys_unique_at_most_one_active |].
  split.
  - intros q a now. split.
    + apply keys_unique_at_most_one_active.
      exact (insert_on_conflict_keys_unique _ _ now _ Hu).
    + intros key H1.
      destruct (perform_active_count (Upsert q a) now (perform_all ops s) key)
        as [Heq | [H0 _]]; simpl in *; lia.
  - intros columns values now.
    pose proof (insert_on_conflict_keys_unique columns values now _ Hu) as Hk.
    split; [exact Hk | now apply keys_unique_at_most_one_active].
Qed.

Lemma at_most_one_active_invariant_witness :
  keys_unique one_hello
  /\ length (active_for "hello"
               (conversations
                  (perform_all [(Find " HELLO ", 2);
                                (RecordLog " HELLO " None false "" "" 3, 2);
                                (Search "he" 10 0, 4); (Stats, 5)] one_hello)))
     = 1%nat
  /\ length (active_for "hello"
               (conversations
                  (snd (upsertResponse "Hello" "Hey!" 6
                          (perform_all [(Find " HELLO ", 2);
                                        (RecordLog " HELLO " None false "" "" 3, 2);
                                        (Search "he" 10 0, 4); (Stats, 5)]
                                       one_hello)))))
     = 1%nat
  /\ at_most_one_active
       (snd (insert_on_conflict_do_update ["question"; "answer"] ["Hello"; "Hey!"] 6
               one_hello)).
Proof.
  assert (H0 : keys_unique one_hello).
  { unfold keys_unique. simpl. repeat constructor. intros []. }
  split; [exact H0 |].
  destruct (at_most_one_active_invariant
              [(Find " HELLO ", 2); (RecordLog " HELLO " None false "" "" 3, 2);
               (Search "he" 10 0, 4); (Stats, 5)] one_hello H0)
    as (_ & _ & Hup & _).
  split; [reflexivity |]. split.
  - apply (proj2 (Hup "Hello" "Hey!" 6)). reflexivity.
  - destruct (at_most_one_active_invariant [] one_hello H0) as (_ & _ & _ & Hgen).
    exact (proj2 (Hgen ["question"; "answer"] ["Hello"; "Hey!"] 6)).
Defined.

(** The engine statement on a store that holds the key: the row is
    updated in place, no second row appears. *)
Example insert_on_conflict_updates_in_place :
  conversations
    (snd (insert_on_conflict_do_update ["question"; "answer"] [" HELLO "; "Hey!"] 6
            one_hello))
  = [do_update "Hey!" 6 (fresh_row 1 "hello" "Hi there!" 0)].
Proof. reflexivity. Qed.

End Upsert.


(** ** Teaching through [upsertResponse] and the teach route *)

Section Teach.
Import Sqlite Database Routes Spec Notions Samples.

(** C1. On the code the two-step scenario does not leave one entry with
    the second answer and a teach count of 2: for every question, answers
    and times, both calls of [upsertResponse] on the new store are
    rejected with "cannot INSERT into generated column", the store is
    still empty, and the question is not found afterwards. *)
Theorem upsertResponse_twice_leaves_no_entry (q a1 a2 : string) (t1 t2 : Z) :
  let first := upsertResponse q a1 t1 empty_db in
  let second := upsertResponse q a2 t2 (snd first) in
  fst first = Rejected (CannotInsertIntoGeneratedColumn "normalized_question")
  /\ fst second = Rejected (CannotInsertIntoGeneratedColumn "normalized_question")
  /\ conversations (snd second) = []
  /\ findResponse q (snd second) = Resolved None.
Proof. repeat split. Qed.

Lemma perform_all_upserts calls s : perform_all (map upsert_call calls) s = s.
Proof. induction calls as [|c calls IH]; simpl; [reflexivity | exact IH]. Qed.

(** C8. Calls of [upsertResponse] that are in flight together run as one
    SQL statement each, in some order.  Whatever the calls and their
    order, every statement is rejected with "cannot INSERT into generated
    column", the store is afterwards what it was, and on a new store no
    question is found: there is no entry with a teach count of N. *)
Theorem upserts_in_any_order_leave_no_entry (calls : list (string * string * Z)) (s : db) :
  perform_all (map upsert_call calls) s = s
  /\ (forall q a now s',
        upsertResponse q a now s'
        = (Rejected (CannotInsertIntoGeneratedColumn "normalized_question"), s'))
  /\ conversations (perform_all (map upsert_call calls) empty_db) = []
  /\ forall q, findResponse q (perform_all (map upsert_call calls) empty_db)
               = Resolved None.
Proof.
  split; [apply perform_all_upserts |]. split; [reflexivity |].
  rewrite perform_all_upserts. split; reflexivity.
Qed.

(** [seedDefaultData] therefore leaves a new store empty. *)
Lemma seedDefaultData_empty now : seedDefaultData now empty_db = empty_db.
Proof. reflexivity. Qed.

(** What the teach route does reject as a bad request: an absent or
    empty question or answer, a question of more than 500 characters, an
    answer of more than 1000 characters.  The store is not touched. *)
Lemma teach_bad_request question answer e s :
  missing_or_empty question = true \/ missing_or_empty answer = true
  \/ (exists q, question = Some q /\ 500 < Text.js_length q)
  \/ (exists a, answer = Some a /\ 1000 < Text.js_length a) ->
  exists message, teach question answer e s = (BadRequest message, s).
Proof.
  intros H. unfold teach.
  destruct question as [q|]; [| now eexists].
  destruct answer as [a|]; [| now eexists].
  destruct (missing_or_empty (Some q) || missing_or_empty (Some a)) eqn:Hm;
    [now eexists |].
  apply orb_false_elim in Hm. destruct Hm as [Hq Ha].
  destruct H as [H | [H | [(q' & [= <-] & H) | (a' & [= <-] & H)]]];
    try congruence.
  - apply Z.ltb_lt in H. rewrite H. now eexists.
  - apply Z.ltb_lt in H. rewrite H, orb_true_r. now eexists.
Qed.

(** The engine statement itself is sound: with the two writable columns
    only, teaching a question twice on a new store leaves one row, with
    the second answer, a teach count of 2, the creation time of the first
    call and the update time of the second. *)
Lemma insert_on_conflict_twice q a1 a2 t1 t2 :
  conversations
    (snd (insert_on_conflict_do_update ["question"; "answer"] [q; a2] t2
            (snd (insert_on_conflict_do_update ["question"; "answer"] [q; a1] t1
                    empty_db))))
  = [ {| row_id := 1; question := q; answer := a2; teach_count := 2;
         is_active := true; created_at := t1; updated_at := t2 |} ].
Proof.
  unfold insert_on_conflict_do_update. simpl.
  unfold conflicts, normalized_question. simpl.
  now rewrite String.eqb_refl.
Qed.

Example teach_hello_fails :
  teach (Some "hello") (Some "Hi there!") quiet_env empty_db
  = (InternalServerError "Failed to save the response", empty_db).
Proof. reflexivity. Qed.

(** C5. A question made of white space only is not turned down as a bad
    request by the teach route: the guard tests emptiness, not blankness,
    so the request goes on to [upsertResponse] and ends as an internal
    server error (the store is left as it was). *)
Theorem teach_blank_question_not_bad_request (e : env) (s : db) :
  teach (Some "   ") (Some "hi") e s
  = (InternalServerError "Failed to save the response", s)
  /\ missing_or_blank (Some "   ") = true
  /\ ask (Some "   ") e s = (BadRequest "Question parameter (q) is required", s).
Proof. repeat split. Qed.

End Teach.

(** ** Asking *)

Section Ask.
Import Sqlite Database Routes Spec Samples.

Lemma find_all_false {A : Type} (p : A -> bool) (l : list A) :
  (forall x, In x l -> p x = false) -> List.find p l = None.
Proof.
  induction l as [|x l IH]; intros H; simpl; [reflexivity |].
  rewrite (H x) by now left. apply IH. intros y Hy. apply H. now right.
Qed.

Lemma findResponse_no_active_match q s :
  no_active_match q s -> findResponse q s = Resolved None.
Proof.
  intros H. rewrite findResponse_by_key. f_equal. apply find_all_false.
  intros r Hr. destruct (is_active r) eqn:Ha; [| apply andb_false_r].
  rewrite andb_true_r. apply String.eqb_neq. now apply H.
Qed.

Lemma index_floor_in {A : Type} (arr : list A) (x : Q) :
  (0 <= x)%Q -> (x < inject_Z (Z.of_nat (length arr)))%Q ->
  exists a, index_floor arr x = Some a /\ In a arr.
Proof.
  intros H0 H1. unfold index_floor.
  assert (Hlo : 0 <= Qfloor x).
  { change 0 with (Qfloor 0). now apply Qfloor_resp_le. }
  assert (Hhi : Qfloor x < Z.of_nat (length arr)).
  { rewrite Zlt_Qlt. eapply Qle_lt_trans; [apply Qfloor_le | exact H1]. }
  destruct (Qfloor x <? 0) eqn:Hneg; [apply Z.ltb_lt in Hneg; lia |].
  destruct (lookup_lt_is_Some_2 arr (Z.to_nat (Qfloor x))) as [a Ha]; [lia |].
  exists a. split; [exact Ha |].
  apply list_elem_of_In. eapply list_elem_of_lookup_2. exact Ha.
Qed.

Lemma trim_nonempty q : Text.trim q <> "" -> missing_or_blank (Some q) = false.
Proof.
  intros H. unfold missing_or_blank.
  destruct q; [now elim H |]. simpl Text.truthy. simpl negb. simpl orb.
  now apply String.eqb_neq.
Qed.

(** C6 as amended. For every question that is not blank and whose
    normalized form has no active entry, with [Math.random()] in [0, 1),
    the ask route answers "not found" with one of the five fixed fallback
    messages, appends exactly one log entry whose response is null and
    whose taught flag is false, and leaves the conversations unchanged. *)
Theorem ask_not_found (q : string) (e : env) (s : db) :
  Text.trim q <> "" ->
  (0 <= math_random e)%Q -> (math_random e < 1)%Q ->
  no_active_match q s ->
  not_found_outcome q e s.
Proof.
  intros Hq Hr0 Hr1 Hno. unfold not_found_outcome, ask.
  rewrite (trim_nonempty q Hq), (findResponse_no_active_match q s Hno).
  destruct (index_floor_in defaultResponses
              (math_random e * inject_Z (Z.of_nat (length defaultResponses))))
    as (msg & Hmsg & Hin).
  - apply Qmult_le_0_compat; [exact Hr0 | discriminate].
  - revert Hr1. destruct (math_random e) as [n d].
    unfold Qlt. simpl. lia.
  - simpl logInteraction. cbv iota beta. rewrite Hmsg.
    eexists msg, _, _. split; [reflexivity |]. split; [exact Hin |].
    split; [| reflexivity]. eexists. now split.
Qed.

Lemma ask_not_found_witness : not_found_outcome "unknown-xyz" quiet_env empty_db.
Proof.
  apply ask_not_found.
  - discriminate.
  - discriminate.
  - reflexivity.
  - intros r [].
Defined.

(** The claim without the proviso fails: a blank question has no active
    entry, yet the ask route answers 400 and logs nothing. *)
Lemma ask_blank_counterexample :
  (0 <= math_random quiet_env)%Q /\ (math_random quiet_env < 1)%Q
  /\ no_active_match "   " empty_db
  /\ ~ not_found_outcome "   " quiet_env empty_db.
Proof.
  split; [discriminate |]. split; [reflexivity |]. split; [intros r [] |].
  intros (msg & ms & s' & H & _). discriminate H.
Qed.

Example ask_padded_hello :
  exists entry,
    ask (Some "  HELLO  ") quiet_env one_hello
    = (AskTaught "  HELLO  " "Hi there!" 1 2,
       {| conversations := conversations one_hello; conversations_seq := 1;
          logs := [entry]; logs_seq := 1 |})
    /\ response entry = Some "Hi there!" /\ is_taught entry = true.
Proof. eexists. repeat split. Qed.

Example ask_unknown_on_new_store :
  exists entry,
    ask (Some "unknown-xyz") quiet_env empty_db
    = (AskUntaught "unknown-xyz"
         (Some "Hmm, I'm not sure about that one. Want to teach me the answer?") 2,
       {| conversations := []; conversations_seq := 0;
          logs := [entry]; logs_seq := 1 |})
    /\ response entry = None /\ is_taught entry = false.
Proof. eexists. repeat split. Qed.

End Ask.


(** ** Search *)

Section Search.
Import Sqlite Database Routes Spec Samples.

Lemma insert_desc_In r x l : In x (insert_desc r l) <-> x = r \/ In x l.
Proof.
  induction l as [|y l IH]; simpl; [intuition |].
  destruct (teach_count r <=? teach_count y); simpl; [rewrite IH |]; intuition.
Qed.

Lemma insert_desc_descending r l : descending l -> descending (insert_desc r l).
Proof.
  unfold descending. induction 1 as [|y l Hl IH Hy]; simpl.
  - repeat constructor.
  - destruct (teach_count r <=? teach_count y) eqn:Hle.
    + apply Z.leb_le in Hle. constructor; [exact IH |].
      apply List.Forall_forall. intros x Hx. apply insert_desc_In in Hx.
      destruct Hx as [-> | Hx]; [exact Hle |].
      rewrite List.Forall_forall in Hy. now apply Hy.
    + apply Z.leb_gt in Hle. constructor; [now constructor |].
      constructor; [lia |].
      rewrite List.Forall_forall in Hy |- *. intros x Hx. specialize (Hy x Hx). lia.
Qed.

Lemma order_by_descending l : descending (order_by_teach_count_desc l).
Proof.
  unfold order_by_teach_count_desc.
  assert (H : forall acc, descending acc ->
                descending (fold_left (fun acc r => insert_desc r acc) l acc)).
  { induction l as [|r l IH]; intros acc Hacc; simpl; [exact Hacc |].
    apply IH. now apply insert_desc_descending. }
  apply H. constructor.
Qed.

Lemma order_by_In x l : In x (order_by_teach_count_desc l) <-> In x l.
Proof.
  unfold order_by_teach_count_desc.
  assert (H : forall acc, In x (fold_left (fun acc r => insert_desc r acc) l acc)
                          <-> In x acc \/ In x l).
  { induction l as [|r l IH]; intros acc; simpl; [intuition |].
    rewrite IH, insert_desc_In. intuition. }
  rewrite H. simpl. intuition.
Qed.

Lemma In_take {A : Type} (x : A) n l : In x (take n l) -> In x l.
Proof.
  revert l. induction n as [|n IH]; intros [|y l]; simpl; try tauto.
  intros [-> | H]; [now left | right; now apply IH].
Qed.

Lemma In_drop {A : Type} (x : A) n l : In x (drop n l) -> In x l.
Proof.
  revert l. induction n as [|n IH]; intros [|y l]; simpl; try tauto.
  intros H. right. now apply IH.
Qed.

Lemma descending_drop n l : descending l -> descending (drop n l).
Proof.
  unfold descending. revert l. induction n as [|n IH]; intros l H; [exact H |].
  destruct l as [|x l]; simpl; [constructor |].
  apply IH. now inversion H.
Qed.

Lemma descending_take n l : descending l -> descending (take n l).
Proof.
  unfold descending. revert l. induction n as [|n IH]; intros l H; [constructor |].
  destruct l as [|x l]; simpl; [constructor |].
  inversion H as [|? ? Hl Hx]; subst. constructor; [now apply IH |].
  rewrite List.Forall_forall in Hx |- *. intros y Hy. apply Hx.
  eapply In_take. exact Hy.
Qed.

Lemma limit_offset_In {A : Type} limit offset (l : list A) x :
  In x (limit_offset limit offset l) -> In x l.
Proof.
  unfold limit_offset. intros H.
  destruct (limit <? 0); [| apply In_take in H]; eapply In_drop; exact H.
Qed.

Lemma select_like_resolved pattern limit offset s rows :
  select_like pattern limit offset s = Resolved rows ->
  rows = limit_offset limit offset
           (order_by_teach_count_desc
              (List.filter (search_where pattern) (conversations s))).
Proof.
  unfold select_like.
  destruct (must_be_int limit); simpl; [| discriminate].
  destruct (Z.eqb_spec limit 0) as [-> | Hl].
  - intros [= <-]. unfold limit_offset. simpl. now rewrite take_0.
  - destruct (must_be_int offset); simpl; [| discriminate].
    destruct (conversations s) as [|r l] eqn:Hc.
    + intros [= <-]. unfold limit_offset, order_by_teach_count_desc. simpl.
      rewrite drop_nil. destruct (limit <? 0); [reflexivity | now rewrite take_nil].
    + destruct (Text.pattern_too_complex pattern); [discriminate |].
      now intros [= <-].
Qed.

Lemma select_like_resolves pattern limit offset s :
  must_be_int limit = true -> must_be_int offset = true ->
  Text.pattern_too_complex pattern = false ->
  exists rows, select_like pattern limit offset s = Resolved rows.
Proof.
  intros Hl Ho Hp. unfold select_like. rewrite Hl, Ho, Hp. simpl.
  destruct (limit =? 0); [now eexists |].
  destruct (conversations s); now eexists.
Qed.

(** X8. What [searchResponses] guarantees.  It resolves whenever limit
    and offset are numbers the engine takes as integers and the pattern
    has at most 50000 bytes.  Whenever it resolves, the page is in
    descending order of teach count, holds at most [limit] rows for a
    limit that is not negative, holds only rows of the table that satisfy
    the WHERE clause, and is empty when no row satisfies it. *)
Lemma searchResponses_page term limit offset s :
  (must_be_int limit = true -> must_be_int offset = true ->
   Text.pattern_too_complex ("%" ++ Text.trim (Text.toLowerCase term) ++ "%") = false ->
   exists rows, searchResponses term limit offset s = Resolved rows)
  /\ forall rows,
       searchResponses term limit offset s = Resolved rows ->
       descending rows
       /\ (0 <= limit -> (length rows <= Z.to_nat limit)%nat)
       /\ (forall r, In r rows ->
             In r (conversations s)
             /\ search_where ("%" ++ Text.trim (Text.toLowerCase term) ++ "%") r = true)
       /\ ((forall r, In r (conversations s) ->
              search_where ("%" ++ Text.trim (Text.toLowerCase term) ++ "%") r = false) ->
           rows = []).
Proof.
  split; [apply select_like_resolves |].
  intros rows Hrows. apply select_like_resolved in Hrows. subst rows.
  repeat split.
  - unfold limit_offset. destruct (limit <? 0).
    + apply descending_drop, order_by_descending.
    + apply descending_take, descending_drop, order_by_descending.
  - intros Hl. unfold limit_offset.
    destruct (limit <? 0) eqn:Hneg; [apply Z.ltb_lt in Hneg; lia |].
    rewrite length_take. lia.
  - apply limit_offset_In, order_by_In, filter_In in H. tauto.
  - apply limit_offset_In, order_by_In, filter_In in H. tauto.
  - intros Hnone.
    assert (Hf : List.filter
                   (search_where ("%" ++ Text.trim (Text.toLowerCase term) ++ "%"))
                   (conversations s) = []).
    { induction (conversations s) as [|r l IH]; simpl; [reflexivity |].
      rewrite (Hnone r) by now left. apply IH. intros r' Hr'. apply Hnone. now right. }
    rewrite Hf. unfold limit_offset, order_by_teach_count_desc.
    cbn [fold_left]. rewrite drop_nil.
    destruct (limit <? 0); [reflexivity | apply take_nil].
Qed.

(** X9. When the store holds no inactive row the page holds none either. *)
Lemma searchResponses_active_store term limit offset s rows :
  (forall r, In r (conversations s) -> is_active r = true) ->
  searchResponses term limit offset s = Resolved rows ->
  forall r, In r rows -> is_active r = true.
Proof.
  intros Hall Hrows r Hr. apply select_like_resolved in Hrows. subst rows.
  apply Hall. apply limit_offset_In, order_by_In, filter_In in Hr. tauto.
Qed.

(** C3. [searchResponses] can return an inactive entry: the active test
    of its WHERE clause is tied to the answer match only, so a
    soft-deleted row whose normalized question contains the term comes
    back, although [findResponse] does not see that row. *)
Theorem searchResponses_returns_inactive :
  exists r,
    searchResponses "hello" 10 0 archived_hello = Resolved [r]
    /\ is_active r = false
    /\ findResponse "hello" archived_hello = Resolved None.
Proof. eexists. repeat split. Qed.

Example searchResponses_order_and_page :
  let rows := [ fresh_row 1 "hello" "Hi" 0;
                do_update "Hey" 2 (do_update "Hey" 1 (fresh_row 2 "hello there" "Hi" 0));
                do_update "Yo" 3 (fresh_row 3 "oh hello" "Hi" 0);
                fresh_row 4 "bye" "Goodbye" 0 ] in
  let s := {| conversations := rows; conversations_seq := 4; logs := []; logs_seq := 0 |} in
  (forall found, searchResponses " HELLO " 10 0 s = Resolved found ->
                 map row_id found = [2; 3; 1])
  /\ (forall found, searchResponses " HELLO " 1 1 s = Resolved found ->
                    map row_id found = [3])
  /\ searchResponses "xyz" 10 0 s = Resolved [].
Proof. repeat split; intros found [= <-]; reflexivity. Qed.

(** Numbers the engine does not take for LIMIT and OFFSET, and the
    shortcut on a limit of zero. *)
Example searchResponses_limits :
  (exists rows, searchResponses "h" (2 ^ 62) 0 one_hello = Resolved rows)
  /\ searchResponses "h" (2 ^ 63) 0 one_hello = Rejected DatatypeMismatch
  /\ searchResponses "h" 10 (- 2 ^ 63) one_hello = Rejected DatatypeMismatch
  /\ searchResponses "h" 0 (2 ^ 63) one_hello = Resolved [].
Proof.
  split; [apply select_like_resolves; reflexivity |].
  repeat split.
Qed.

Lemma utf8_length_app s1 s2 :
  Text.utf8_length (s1 ++ s2) = Text.utf8_length s1 + Text.utf8_length s2.
Proof.
  induction s1 as [|c s1 IH]; [reflexivity |].
  change (String c s1 ++ s2) with (String c (s1 ++ s2)).
  cbn [Text.utf8_length]. rewrite IH. lia.
Qed.

Lemma copies_a_normal n :
  Text.trim (Text.toLowerCase (copies n "a")) = copies n "a".
Proof.
  assert (Hl : Text.toLowerCase (copies n "a") = copies n "a").
  { induction n as [|n IH]; [reflexivity |].
    unfold Text.toLowerCase in *. simpl. now rewrite IH. }
  assert (Hs : Text.trimStart Text.js_is_space (copies n "a") = copies n "a")
    by (destruct n; reflexivity).
  assert (He : Text.trimEnd Text.js_is_space (copies n "a") = copies n "a").
  { clear. induction n as [|n IH]; [reflexivity |].
    cbn [copies Text.trimEnd]. rewrite IH. destruct n; reflexivity. }
  rewrite Hl. unfold Text.trim, Text.trim_with. now rewrite Hs, He.
Qed.

(** A term of 49999 letters or more makes a pattern of more than 50000
    bytes: on a store that holds a row, and with a limit other than zero,
    the search is rejected. *)
Lemma searchResponses_long_term n limit offset s :
  49999 <= Z.of_nat n ->
  must_be_int limit = true -> limit <> 0 -> must_be_int offset = true ->
  conversations s <> [] ->
  searchResponses (copies n "a") limit offset s = Rejected LikePatternTooComplex.
Proof.
  intros Hn Hl H0 Ho Hs. unfold searchResponses, select_like.
  rewrite copies_a_normal, Hl, Ho. simpl.
  replace (limit =? 0) with false by (symmetry; now apply Z.eqb_neq).
  destruct (conversations s) as [|r l]; [congruence |].
  replace (Text.pattern_too_complex ("%" ++ copies n "a" ++ "%")) with true;
    [reflexivity |].
  symmetry. unfold Text.pattern_too_complex, Text.SQLITE_MAX_LIKE_PATTERN_LENGTH.
  rewrite !utf8_length_app.
  assert (Hc : Text.utf8_length (copies n "a") = Z.of_nat n).
  { clear. induction n as [|n IH]; [reflexivity |].
    cbn [copies Text.utf8_length]. rewrite IH. simpl. lia. }
  rewrite Hc. apply Z.ltb_lt. simpl. lia.
Qed.

(** C10. [searchResponses] lower-cases and trims its term before it
    matches.  For every store, limit and offset and for two terms that
    differ only by letter case and by leading or trailing white space:
    the terms have the same normal form; both searches give the same
    outcome, which is that of the query run with the pattern
    [%normalize(term)%]; the search resolves whenever limit and offset are
    numbers the engine takes and the pattern has at most 50000 bytes;
    every row it returns is a row of the table that satisfies the WHERE
    clause for that pattern; and without limit and offset every such row
    is returned. *)
Theorem searchResponses_same_term (s : db) (limit offset : Z) (t1 t2 : string) :
  Spec.same_question t1 t2 ->
  Spec.normalize t1 = Spec.normalize t2
  /\ searchResponses t1 limit offset s = searchResponses t2 limit offset s
  /\ searchResponses t1 limit offset s
     = select_like ("%" ++ Spec.normalize t1 ++ "%") limit offset s
  /\ (must_be_int limit = true -> must_be_int offset = true ->
      Text.pattern_too_complex ("%" ++ Spec.normalize t1 ++ "%") = false ->
      exists rows, searchResponses t2 limit offset s = Resolved rows)
  /\ (forall rows,
        searchResponses t2 limit offset s = Resolved rows ->
        forall r, In r rows ->
                  In r (conversations s)
                  /\ search_where ("%" ++ Spec.normalize t1 ++ "%") r = true)
  /\ (forall rows,
        limit < 0 -> offset <= 0 ->
        searchResponses t2 limit offset s = Resolved rows ->
        forall r, In r (conversations s) ->
                  search_where ("%" ++ Spec.normalize t1 ++ "%") r = true ->
                  In r rows).
Proof.
  intros H.
  assert (Hn1 : Text.trim (Text.toLowerCase t1) = Spec.normalize t1)
    by apply trim_toLowerCase.
  assert (Hn2 : Text.trim (Text.toLowerCase t2) = Spec.normalize t1)
    by (rewrite <- (normalize_same_question _ _ H); exact Hn1).
  split; [now apply same_question_normalize |].
  unfold searchResponses. rewrite Hn1, Hn2.
  split; [reflexivity |]. split; [reflexivity |].
  split; [apply select_like_resolves |]. split.
  - intros rows Hrows r Hr. apply select_like_resolved in Hrows. subst rows.
    apply limit_offset_In, order_by_In, filter_In in Hr. exact Hr.
  - intros rows Hl Ho Hrows r Hr Hw. apply select_like_resolved in Hrows.
    subst rows. unfold limit_offset.
    replace (limit <? 0) with true by (symmetry; apply Z.ltb_lt; lia).
    replace (Z.to_nat offset) with 0%nat by lia. simpl.
    apply order_by_In, filter_In. now split.
Qed.

Lemma searchResponses_same_term_witness :
  Spec.same_question "Hello" "  hello "
  /\ searchResponses "Hello" 10 0 one_hello
     = Resolved [fresh_row 1 "hello" "Hi there!" 0]
  /\ searchResponses "  hello " 10 0 one_hello
     = Resolved [fresh_row 1 "hello" "Hi there!" 0].
Proof.
  split; [exact same_Hello_padded |].
  destruct (searchResponses_same_term one_hello 10 0 "Hello" "  hello "
              same_Hello_padded) as (_ & Heq & _).
  split; [reflexivity | rewrite <- Heq; reflexivity].
Defined.

End Search.


(** ** The rate limiter *)

Section RateLimit.
Import Sqlite Database Routes Spec Samples.








Lemma rateLimit_cases ip now counts :
  let cur := List.filter (fun t => now - RATE_LIMIT_WINDOW <? t) (requests_of counts ip) in
  exists out counts',
    rateLimit ip now counts = (out, counts')
    /\ (forall ip', ip' <> ip -> requests_of counts' ip' = requests_of counts ip')
    /\ (((RATE_LIMIT <= length cur)%nat
         /\ (exists retry, out = Limited retry)
         /\ requests_of counts' ip = cur)
        \/ ((length cur < RATE_LIMIT)%nat
            /\ (exists remaining, out = Next remaining)
            /\ requests_of counts' ip = (cur ++ [now])%list)).
Proof.
  unfold rateLimit, requests_of. destruct (counts !! ip) as [times|] eqn:Hl.
  - rewrite lookup_insert_eq. cbn [default].
    destruct (RATE_LIMIT <=? _)%nat eqn:Hc.
    + apply Nat.leb_le in Hc. eexists _, _. split; [reflexivity |]. split.
      * intros ip' Hne. now rewrite lookup_insert_ne by congruence.
      * left. rewrite lookup_insert_eq. eauto.
    + apply Nat.leb_gt in Hc. eexists _, _. split; [reflexivity |]. split.
      * intros ip' Hne. now rewrite !lookup_insert_ne by congruence.
      * right. rewrite lookup_insert_eq. eauto.
  - rewrite Hl. cbn [default List.filter length Nat.leb RATE_LIMIT].
    eexists _, _. split; [reflexivity |]. split.
    + intros ip' Hne. now rewrite lookup_insert_ne by congruence.
    + right. rewrite lookup_insert_eq. unfold RATE_LIMIT. split; [lia | eauto].
Qed.

Lemma dispatch_not_limited r e s : limited (fst (dispatch r e s)) = false.
Proof.
  destruct r; simpl; unfold ask, teach, stats_route, search; simpl;
    repeat case_match; reflexivity.
Qed.

Lemma router_cases r e a :
  let ip := client e in
  let cur := List.filter (fun t => date_now e - RATE_LIMIT_WINDOW <? t)
                         (requests_of (requestCounts a) ip) in
  exists rep a',
    router r e a = (rep, a')
    /\ (forall ip', ip' <> ip ->
          requests_of (requestCounts a') ip' = requests_of (requestCounts a) ip')
    /\ (((RATE_LIMIT <= length cur)%nat
         /\ (exists retry, rep = TooManyRequests retry)
         /\ store a' = store a
         /\ requests_of (requestCounts a') ip = cur)
        \/ ((length cur < RATE_LIMIT)%nat
            /\ limited rep = false
            /\ requests_of (requestCounts a') ip = (cur ++ [date_now e])%list)).
Proof.
  intros ip cur. unfold router.
  destruct (rateLimit_cases ip (date_now e) (requestCounts a))
    as (out & counts' & Hrl & Hother & Hcase).
  fold ip. rewrite Hrl.
  destruct Hcase as [(Hlen & [retry ->] & Hip) | (Hlen & [remaining ->] & Hip)].
  - eexists _, _. split; [reflexivity |]. split; [exact Hother |].
    left. simpl. eauto.
  - pose proof (dispatch_not_limited r e (store a)) as Hd.
    destruct (dispatch r e (store a)) as [rep s'].
    eexists _, _. split; [reflexivity |]. split; [exact Hother |].
    right. simpl. eauto.
Qed.

Lemma limiter_inv_later counts hist T T' :
  limiter_inv counts hist T -> T <= T' -> limiter_inv counts hist T'.
Proof.
  intros H Hle ip. destruct (H ip) as (cut & Hcut & Heq).
  exists cut. split; [lia | exact Heq].
Qed.











(** A burst of 101 calls: the first hundred pass, the last one is limited
    and told to come back in (at most) 60 seconds. *)
Example burst_101 :
  map limited (fst (serve (burst 101) new_app)) = (repeat false 100 ++ [true])%list
  /\ List.last (fst (serve (burst 101) new_app)) Health = TooManyRequests (Some 60).
Proof. vm_compute. split; reflexivity. Qed.

(** The window is open at its start: a call made exactly 60000 ms after
    a full burst is let through again. *)
Example burst_then_minute_later :
  let late := {| req_ip := "10.0.0.1"; remote_address := "10.0.0.1";
                 header_user_agent := "curl"; date_now := 61000;
                 start_time := 61000; end_time := 61001;
                 math_random := 0; current_timestamp := 61 |} in
  limited (fst (router GetRoot late (snd (serve (burst 100) new_app)))) = false.
Proof. vm_compute. reflexivity. Qed.

End RateLimit.


(** ** More on normalization and lookup *)

Section Lookup.
Import Text Sqlite Database Spec Notions Samples.

Lemma js_lower_char_idem c : js_lower_char (js_lower_char c) = js_lower_char c.
Proof. destruct c as [[] [] [] [] [] [] [] []]; reflexivity. Qed.

Lemma toLowerCase_idem s : toLowerCase (toLowerCase s) = toLowerCase s.
Proof.
  unfold toLowerCase. induction s as [|c s IH]; simpl; [reflexivity |].
  now rewrite js_lower_char_idem, IH.
Qed.

Lemma trimStart_clean ws s : starts_clean ws (trimStart ws s).
Proof.
  induction s as [|c s IH]; simpl; [exact I |].
  destruct (ws c) eqn:Hc; [exact IH | exact Hc].
Qed.

Lemma trimStart_of_clean ws s : starts_clean ws s -> trimStart ws s = s.
Proof. destruct s as [|c s]; simpl; [reflexivity |]. now intros ->. Qed.

Lemma trimEnd_clean ws s : starts_clean ws s -> starts_clean ws (trimEnd ws s).
Proof.
  destruct s as [|c s]; simpl; [exact id |]. intros Hc.
  destruct (trimEnd ws s); simpl; [now rewrite Hc | exact Hc].
Qed.

Lemma trimEnd_idem ws s : trimEnd ws (trimEnd ws s) = trimEnd ws s.
Proof.
  induction s as [|c s IH]; simpl; [reflexivity |].
  destruct (trimEnd ws s) as [|d u] eqn:Hu.
  - destruct (ws c) eqn:Hc; simpl; [reflexivity | now rewrite Hc].
  - change (trimEnd ws (String c (String d u)))
      with (match trimEnd ws (String d u) with
            | EmptyString => if ws c then EmptyString else String c EmptyString
            | String a t => String c (String a t)
            end).
    now rewrite IH.
Qed.

Lemma trim_with_idem ws s : trim_with ws (trim_with ws s) = trim_with ws s.
Proof.
  unfold trim_with.
  rewrite (trimStart_of_clean ws (trimEnd ws (trimStart ws s))).
  - apply trimEnd_idem.
  - apply trimEnd_clean, trimStart_clean.
Qed.

Lemma normalize_idem q :
  trim (toLowerCase (trim (toLowerCase q))) = trim (toLowerCase q).
Proof.
  rewrite (trim_toLowerCase (trim (toLowerCase q))).
  unfold trim at 1 2. rewrite trim_with_idem. fold trim.
  rewrite <- trim_toLowerCase. now rewrite toLowerCase_idem.
Qed.

(** X1. What [findResponse] returns: it always resolves; a returned row is
    a row of the table, is active, carries the key
    [question.toLowerCase().trim()], and that key is itself in normal form;
    [undefined] is returned exactly when no active row carries the key. *)
Theorem findResponse_result (q : string) (s : db) :
  match findResponse q s with
  | Resolved (Some r) =>
      In r (conversations s) /\ is_active r = true
      /\ normalized_question r = trim (toLowerCase q)
      /\ trim (toLowerCase (normalized_question r)) = normalized_question r
  | Resolved None =>
      forall r, In r (conversations s) -> is_active r = true ->
                normalized_question r <> trim (toLowerCase q)
  | Rejected _ => False
  end.
Proof.
  unfold findResponse.
  destruct (List.find _ (conversations s)) as [r|] eqn:Hf.
  - apply find_some in Hf. destruct Hf as [Hin Hp].
    apply andb_prop in Hp. destruct Hp as [Hk Ha].
    apply String.eqb_eq in Hk. repeat split; try assumption.
    rewrite Hk. apply normalize_idem.
  - intros r Hin Ha Hk.
    pose proof (find_none _ _ Hf r Hin) as Hp. simpl in Hp.
    rewrite Ha, andb_true_r in Hp. apply String.eqb_neq in Hp. contradiction.
Qed.

(** X2. Looking a question up in its normal form gives the same result
    as looking up the question itself, for [findResponse] and for
    [searchResponses] alike. *)
Theorem lookup_of_normal_form (q : string) (limit offset : Z) (s : db) :
  findResponse (trim (toLowerCase q)) s = findResponse q s
  /\ searchResponses (trim (toLowerCase q)) limit offset s
     = searchResponses q limit offset s.
Proof.
  unfold findResponse, searchResponses. now rewrite normalize_idem.
Qed.

Lemma printable_lower c :
  printable c = true -> sql_lower_char c = js_lower_char c.
Proof.
  destruct c as [[] [] [] [] [] [] [] []]; intros H;
    first [reflexivity | discriminate H].
Qed.

Lemma printable_space c :
  printable c = true -> sql_is_space c = js_is_space c.
Proof.
  destruct c as [[] [] [] [] [] [] [] []]; intros H;
    first [reflexivity | discriminate H].
Qed.

Lemma all_chars_cons p c s :
  all_chars p (String c s) = true -> p c = true /\ all_chars p s = true.
Proof. simpl. intros H. now apply andb_prop in H. Qed.

Lemma all_chars_trimStart p ws s :
  all_chars p s = true -> all_chars p (trimStart ws s) = true.
Proof.
  induction s as [|c s IH]; simpl; [reflexivity |]. intros H.
  destruct (ws c); [| exact H]. apply andb_prop in H. now apply IH.
Qed.

Lemma all_chars_trimEnd p ws s :
  all_chars p s = true -> all_chars p (trimEnd ws s) = true.
Proof.
  induction s as [|c s IH]; simpl; [reflexivity |]. intros H.
  apply andb_prop in H. destruct H as [Hc Hs]. specialize (IH Hs).
  destruct (trimEnd ws s); simpl.
  - destruct (ws c); simpl; [reflexivity | now rewrite Hc].
  - simpl in IH. now rewrite Hc, IH.
Qed.

Lemma printable_LOWER s : all_chars printable s = true -> LOWER s = toLowerCase s.
Proof.
  unfold LOWER, toLowerCase. induction s as [|c s IH]; simpl; [reflexivity |].
  intros H. apply andb_prop in H. destruct H as [Hc Hs].
  now rewrite (printable_lower c Hc), IH.
Qed.

Lemma printable_trimStart s :
  all_chars printable s = true ->
  trimStart sql_is_space s = trimStart js_is_space s.
Proof.
  induction s as [|c s IH]; simpl; [reflexivity |].
  intros H. apply andb_prop in H. destruct H as [Hc Hs].
  rewrite (printable_space c Hc). now destruct (js_is_space c); [apply IH |].
Qed.

Lemma printable_trimEnd s :
  all_chars printable s = true ->
  trimEnd sql_is_space s = trimEnd js_is_space s.
Proof.
  induction s as [|c s IH]; simpl; [reflexivity |].
  intros H. apply andb_prop in H. destruct H as [Hc Hs].
  now rewrite (printable_space c Hc), IH.
Qed.

(** On printable ASCII text the key computed by the engine is the key
    computed by the JavaScript code. *)
Lemma printable_key s :
  all_chars printable s = true -> LOWER (TRIM s) = trim (toLowerCase s).
Proof.
  intros H. unfold TRIM, trim_with.
  rewrite printable_LOWER
    by now apply all_chars_trimEnd, all_chars_trimStart.
  rewrite (printable_trimStart s H).
  rewrite printable_trimEnd by now apply all_chars_trimStart.
  symmetry. apply trim_toLowerCase.
Qed.

Lemma NoDup_map_agree {A B : Type} (f : A -> B) (l : list A) x y :
  List.NoDup (map f l) -> In x l -> In y l -> f x = f y -> x = y.
Proof.
  induction l as [|z l IH]; simpl; [tauto |].
  intros Hnd Hx Hy Hf. apply List.NoDup_cons_iff in Hnd. destruct Hnd as [Hz Hnd].
  destruct Hx as [-> | Hx], Hy as [-> | Hy]; [reflexivity | | | now apply IH].
  - exfalso. apply Hz. rewrite Hf. now apply in_map.
  - exfalso. apply Hz. rewrite <- Hf. now apply in_map.
Qed.

Lemma find_the_one {A : Type} (p : A -> bool) (l : list A) r :
  In r l -> p r = true -> (forall x, In x l -> p x = true -> x = r) ->
  List.find p l = Some r.
Proof.
  induction l as [|z l IH]; simpl; [tauto |]. intros Hin Hp Huniq.
  destruct (p z) eqn:Hz.
  - f_equal. apply Huniq; [now left | exact Hz].
  - destruct Hin as [-> | Hin]; [congruence |].
    apply IH; [exact Hin | exact Hp |]. intros x Hx. apply Huniq. now right.
Qed.

(** X3. Stored entries are found again: in a table that obeys the UNIQUE
    constraint, an active row whose question is printable ASCII is
    returned by [findResponse] for every question that differs from the
    stored one only by letter case and by leading or trailing white
    space. *)
Theorem findResponse_stored_row (s : db) (r : conversation) (q : string) :
  keys_unique s ->
  In r (conversations s) ->
  is_active r = true ->
  all_chars printable (question r) = true ->
  same_question q (question r) ->
  findResponse q s = Resolved (Some r).
Proof.
  intros Huniq Hin Hact Hpr Hsame. unfold findResponse. f_equal.
  assert (Hkey : normalized_question r = trim (toLowerCase q)).
  { unfold normalized_question. rewrite (printable_key _ Hpr).
    symmetry. now apply normalize_same_question. }
  apply find_the_one; [exact Hin | |].
  - rewrite Hact, andb_true_r. now apply String.eqb_eq.
  - intros x Hx Hp. apply andb_prop in Hp. destruct Hp as [Hk _].
    apply String.eqb_eq in Hk.
    apply (NoDup_map_agree normalized_question (conversations s));
      [exact Huniq | exact Hx | exact Hin | congruence].
Qed.

Lemma findResponse_stored_row_witness :
  findResponse "  HeLLo " one_hello = Resolved (Some (fresh_row 1 "hello" "Hi there!" 0)).
Proof.
  apply findResponse_stored_row.
  - unfold keys_unique. simpl. repeat constructor. intros [].
  - now left.
  - reflexivity.
  - reflexivity.
  - apply same_sym.
    apply same_trans with "heLLo"; [| apply same_trans with "HeLLo"].
    + apply same_trans with "helLo".
      * exact (same_case "l" "L" "hel" "o" eq_refl).
      * exact (same_case "l" "L" "he" "Lo" eq_refl).
    + exact (same_case "h" "H" "" "eLLo" eq_refl).
    + apply same_trans with " HeLLo"; [now apply same_leading |].
      apply same_trans with "  HeLLo"; [now apply same_leading |].
      exact (same_trailing " " "  HeLLo" eq_refl).
Defined.

(** Without the restriction to printable text the two keys part: a
    question taught with a leading tab is filed under a key that no
    lookup produces. *)
Example tab_question_is_lost :
  let tab_hello := String "009"%char "hello" in
  let s := {| conversations := [fresh_row 1 tab_hello "Hi" 0];
              conversations_seq := 1; logs := []; logs_seq := 0 |} in
  findResponse tab_hello s = Resolved None.
Proof. reflexivity. Qed.

End Lookup.


(** ** More on the interaction log and the statistics *)

Section LogAndStats.
Import Text Sqlite Database Routes Spec Notions Samples.

(** X4. [logInteraction] only appends: in a log whose ids do not exceed
    the AUTOINCREMENT counter it resolves to the id of a new last row,
    larger than every id already present, which holds the six values
    passed in; the earlier rows and the conversations are untouched, and
    the ids stay below the counter. *)
Theorem logInteraction_appends (q : string) (resp : option string) (isTaught : bool)
        (userAgent ipAddress : string) (responseTime now : Z) (s : db) :
  log_ids_bounded s ->
  exists entry s',
    logInteraction q resp isTaught userAgent ipAddress responseTime now s
    = (Resolved (log_id entry), s')
    /\ logs s' = (logs s ++ [entry])%list
    /\ (forall l, In l (logs s) -> log_id l < log_id entry)
    /\ (log_question entry, response entry, is_taught entry,
        user_agent entry, ip_address entry, response_time_ms entry)
       = (q, resp, isTaught, userAgent, ipAddress, responseTime)
    /\ conversations s' = conversations s
    /\ log_ids_bounded s'.
Proof.
  intros Hb. unfold log_ids_bounded in Hb. rewrite List.Forall_forall in Hb.
  exists {| log_id := logs_seq s + 1; log_question := q; response := resp;
            is_taught := isTaught; response_time_ms := responseTime;
            user_agent := userAgent; ip_address := ipAddress; timestamp := now |}.
  eexists. split; [reflexivity |]. simpl. repeat split.
  - intros l Hl. specialize (Hb l Hl). lia.
  - unfold log_ids_bounded. simpl. apply List.Forall_forall. intros l Hl.
    apply in_app_iff in Hl. destruct Hl as [Hl | [<- | []]]; simpl.
    + specialize (Hb l Hl). lia.
    + lia.
Qed.

Lemma logInteraction_appends_witness :
  exists entry s',
    logInteraction "hi" None false "curl" "10.0.0.1" 3 9 measured
    = (Resolved (log_id entry), s')
    /\ log_id entry = 5.
Proof.
  assert (Hb : log_ids_bounded measured).
  { unfold log_ids_bounded. simpl. repeat constructor; simpl; lia. }
  destruct (logInteraction_appends "hi" None false "curl" "10.0.0.1" 3 9 measured Hb)
    as (entry & s' & Hrun & _).
  exists entry, s'. split; [exact Hrun |].
  injection Hrun as Hid _. now rewrite <- Hid.
Defined.

Lemma filter_snoc {A : Type} (p : A -> bool) (l : list A) x :
  List.filter p (l ++ [x]) = (List.filter p l ++ if p x then [x] else [])%list.
Proof. rewrite List.filter_app. simpl. now destruct (p x). Qed.

Lemma positive_count_snoc l x :
  positive_count (l ++ [x])
  = (positive_count l + if (0 <? response_time_ms x)%Z then 1 else 0)%nat.
Proof.
  induction l as [|y l IH]; simpl.
  - destruct (0 <? response_time_ms x); reflexivity.
  - destruct (0 <? response_time_ms y); rewrite IH; reflexivity.
Qed.

Lemma positive_total_snoc l x :
  positive_total (l ++ [x])
  = positive_total l + if 0 <? response_time_ms x then response_time_ms x else 0.
Proof.
  induction l as [|y l IH]; simpl.
  - destruct (0 <? response_time_ms x); lia.
  - destruct (0 <? response_time_ms y); rewrite IH; lia.
Qed.

(** X5. Statistics after one more log entry: [total_interactions] grows
    by one, [taught_responses] grows by one exactly when the entry is
    flagged as taught, [total_responses] and [last_taught] stay, and
    the average stays as well when the recorded time is not positive. *)
Theorem getStats_after_logInteraction (q : string) (resp : option string)
        (isTaught : bool) (userAgent ipAddress : string) (responseTime now : Z)
        (s : db) :
  exists st st',
    getStats s = Resolved st
    /\ getStats (snd (logInteraction q resp isTaught userAgent ipAddress
                        responseTime now s)) = Resolved st'
    /\ total_interactions st' = total_interactions st + 1
    /\ taught_responses st' = taught_responses st + (if isTaught then 1 else 0)
    /\ total_responses st' = total_responses st
    /\ last_taught st' = last_taught st
    /\ (responseTime <= 0 -> avg_response_time st' = avg_response_time st).
Proof.
  eexists _, _. split; [reflexivity |]. split; [reflexivity |]. simpl.
  repeat split.
  - rewrite length_app. simpl. lia.
  - rewrite filter_snoc, length_app. simpl. destruct isTaught; simpl; lia.
  - intros Hrt. rewrite !AVG_positive_times.
    rewrite positive_count_snoc, positive_total_snoc. simpl.
    replace (0 <? responseTime) with false by (symmetry; apply Z.ltb_ge; lia).
    now rewrite Nat.add_0_r, Z.add_0_r.
Qed.

Lemma positive_count_le_total l : Z.of_nat (positive_count l) <= positive_total l.
Proof.
  induction l as [|x l IH]; simpl; [lia |].
  destruct (0 <? response_time_ms x) eqn:Hpos; [apply Z.ltb_lt in Hpos |]; lia.
Qed.

Lemma positive_total_le l M :
  (forall x, In x l -> response_time_ms x <= M) ->
  positive_total l <= M * Z.of_nat (positive_count l).
Proof.
  induction l as [|x l IH]; intros HM; simpl; [lia |].
  assert (IH' : positive_total l <= M * Z.of_nat (positive_count l))
    by (apply IH; intros y Hy; apply HM; now right).
  pose proof (HM x (or_introl eq_refl)) as Hx.
  destruct (0 <? response_time_ms x) eqn:Hpos; [| exact IH'].
  apply Z.ltb_lt in Hpos. nia.
Qed.

Lemma Zpos_of_nat_S n : Z.pos (Pos.of_nat (S n)) = Z.of_nat (S n).
Proof. rewrite <- Pos.of_nat_succ, Zpos_P_of_succ_nat. lia. Qed.

Lemma positive_count_zero l :
  positive_count l = 0%nat -> forall x, In x l -> response_time_ms x <= 0.
Proof.
  induction l as [|y l IH]; simpl; [tauto |].
  destruct (0 <? response_time_ms y) eqn:Hy; [discriminate |].
  intros H0 x [<- | Hx]; [now apply Z.ltb_ge | now apply IH].
Qed.

Lemma average_cases (l : list log) :
  match AVG (List.filter (fun t => 0 <? t) (map response_time_ms l)) with
  | None => forall x, In x l -> response_time_ms x <= 0
  | Some a =>
      (exists x, In x l /\ 0 < response_time_ms x)
      /\ (1 <= a)%Q
      /\ forall M, (forall x, In x l -> response_time_ms x <= M) ->
                   (a <= inject_Z M)%Q
  end.
Proof.
  rewrite AVG_positive_times.
  destruct (positive_count l) as [|n] eqn:Hn.
  - now apply positive_count_zero.
  - split; [| split].
    + assert (H : (0 < positive_count l)%nat) by (rewrite Hn; lia).
      clear Hn. induction l as [|x l IH]; simpl in H; [lia |].
      destruct (0 <? response_time_ms x) eqn:Hx.
      * exists x. split; [now left | now apply Z.ltb_lt].
      * destruct (IH H) as (y & Hy & Hpos). exists y. split; [now right | exact Hpos].
    + pose proof (positive_count_le_total l) as H1. rewrite Hn in H1.
      unfold Qle. cbn [Qnum Qden]. rewrite Zpos_of_nat_S. lia.
    + intros M HM. pose proof (positive_total_le l M HM) as H2.
      rewrite Hn in H2. unfold Qle. cbn [Qnum Qden inject_Z].
      rewrite Zpos_of_nat_S. lia.
Qed.

(** X6. The average of [getStats] is NULL exactly when no log entry has
    a positive response time; otherwise it is at least 1 ms and at most
    any bound that holds for all recorded times. *)
Theorem getStats_average_bounds (s : db) :
  exists st,
    getStats s = Resolved st
    /\ match avg_response_time st with
       | None => forall l, In l (logs s) -> response_time_ms l <= 0
       | Some a =>
           (exists l, In l (logs s) /\ 0 < response_time_ms l)
           /\ (1 <= a)%Q
           /\ forall M, (forall l, In l (logs s) -> response_time_ms l <= M) ->
                        (a <= inject_Z M)%Q
       end.
Proof. eexists. split; [reflexivity | apply average_cases]. Qed.

(** X7. The stats route never fails and never writes: it reports the
    sizes of the two tables and the number of taught log entries; the
    reported creation time is null exactly for an empty table; the
    rounded average is 0 exactly when no log entry has a positive
    response time and at least 1 otherwise. *)
Theorem stats_route_report (s : db) :
  exists latest avg_ms,
    stats_route s
    = (StatsReport (Z.of_nat (length (conversations s)))
         (Z.of_nat (length (logs s)))
         (Z.of_nat (length (List.filter is_taught (logs s))))
         latest avg_ms, s)
    /\ (latest = None <-> conversations s = [])
    /\ 0 <= avg_ms
    /\ (avg_ms = 0 <-> forall l, In l (logs s) -> response_time_ms l <= 0).
Proof.
  unfold stats_route. simpl.
  assert (Hnz : forall x, nonzero_or x 0 = x).
  { intros x. unfold nonzero_or. destruct (Z.eqb_spec x 0); congruence. }
  rewrite !Hnz. eexists _, _. split; [reflexivity |]. split; [| ].
  - destruct (conversations s); simpl; split; congruence.
  - pose proof (average_cases (logs s)) as Hc.
    destruct (AVG _) as [a|]; simpl.
    + destruct Hc as ((x & Hx & Hpos) & H1 & _).
      assert (Hr : 1 <= round a).
      { unfold round. change 1 with (Qfloor 1). apply Qfloor_resp_le.
        apply Qle_trans with a; [exact H1 |].
        rewrite <- (Qplus_0_r a) at 1. apply Qplus_le_r. discriminate. }
      split; [lia |]. split; [lia |].
      intros Hall. specialize (Hall x Hx). lia.
    + split; [discriminate |]. split; [intros _; exact Hc | reflexivity].
Qed.

End LogAndStats.


(** ** More on search *)

Section SearchMore.
Import Text Sqlite Database Routes Spec Notions Samples.

Lemma searchResponses_active_store_witness :
  searchResponses "hello" 10 0 one_hello
  = Resolved [fresh_row 1 "hello" "Hi there!" 0]
  /\ is_active (fresh_row 1 "hello" "Hi there!" 0) = true.
Proof.
  split; [reflexivity |].
  apply (searchResponses_active_store "hello" 10 0 one_hello
           [fresh_row 1 "hello" "Hi there!" 0]).
  - intros x [<- | []]. reflexivity.
  - reflexivity.
  - now left.
Defined.

Lemma insert_desc_perm r l : Permutation (insert_desc r l) (r :: l).
Proof.
  induction l as [|x l IH]; simpl; [reflexivity |].
  destruct (teach_count r <=? teach_count x); [| reflexivity].
  rewrite IH. apply perm_swap.
Qed.

Lemma order_by_perm l : Permutation (order_by_teach_count_desc l) l.
Proof.
  unfold order_by_teach_count_desc.
  assert (H : forall acc,
             Permutation (fold_left (fun acc r => insert_desc r acc) l acc)
                         (acc ++ l)).
  { induction l as [|r l IH]; intros acc; simpl.
    - now rewrite app_nil_r.
    - rewrite IH, insert_desc_perm. apply Permutation_middle. }
  apply (H []).
Qed.

(** X10. Ordering loses and repeats nothing: a page that
    [searchResponses] resolves to is cut by LIMIT/OFFSET from a list that
    is a permutation of the rows satisfying the WHERE clause and that is
    in descending order of teach count. *)
Theorem searchResponses_cut_of_permutation (term : string) (limit offset : Z)
        (s : db) (rows : list conversation) :
  searchResponses term limit offset s = Resolved rows ->
  exists ordered,
    Permutation ordered
      (List.filter (search_where ("%" ++ trim (toLowerCase term) ++ "%"))
                   (conversations s))
    /\ descending ordered
    /\ rows = limit_offset limit offset ordered.
Proof.
  intros Hrows. apply select_like_resolved in Hrows.
  eexists. split; [apply order_by_perm |].
  split; [apply order_by_descending | exact Hrows].
Qed.

Lemma searchResponses_cut_of_permutation_witness :
  exists ordered,
    Permutation ordered
      (List.filter (search_where ("%" ++ trim (toLowerCase "E") ++ "%"))
                   (conversations archived_hello))
    /\ descending ordered
    /\ conversations archived_hello = limit_offset 10 0 ordered.
Proof.
  apply (searchResponses_cut_of_permutation "E" 10 0 archived_hello).
  reflexivity.
Defined.

Lemma take_plus {A : Type} (n m : nat) (l : list A) :
  take (n + m) l = (take n l ++ take m (drop n l))%list.
Proof.
  revert l. induction n as [|n IH]; intros l; simpl; [reflexivity |].
  destruct l as [|x l]; simpl.
  - now rewrite take_nil.
  - now rewrite IH.
Qed.

(** X11. Consecutive pages tile the ordered result: for a limit and an
    offset that are not negative, whenever the page at [offset], the page
    at [offset + limit] and the page of twice the size at [offset] all
    resolve, the third is the first followed by the second. *)
Theorem searchResponses_pages_tile (term : string) (limit offset : Z) (s : db)
        (page1 page2 both : list conversation) :
  0 <= limit -> 0 <= offset ->
  searchResponses term limit offset s = Resolved page1 ->
  searchResponses term limit (offset + limit) s = Resolved page2 ->
  searchResponses term (2 * limit) offset s = Resolved both ->
  both = (page1 ++ page2)%list.
Proof.
  intros Hl Ho H1 H2 H3.
  apply select_like_resolved in H1, H2, H3. subst page1 page2 both.
  unfold limit_offset.
  replace (limit <? 0) with false by (symmetry; apply Z.ltb_ge; lia).
  replace (2 * limit <? 0) with false by (symmetry; apply Z.ltb_ge; lia).
  replace (Z.to_nat (2 * limit)) with (Z.to_nat limit + Z.to_nat limit)%nat by lia.
  replace (Z.to_nat (offset + limit)) with (Z.to_nat offset + Z.to_nat limit)%nat by lia.
  rewrite take_plus, drop_drop. reflexivity.
Qed.

Lemma searchResponses_pages_tile_witness :
  conversations archived_hello
  = (take 1 (conversations archived_hello)
       ++ drop 1 (conversations archived_hello))%list.
Proof.
  apply (searchResponses_pages_tile "e" 1 0 archived_hello);
    [lia | lia | reflexivity | reflexivity | reflexivity].
Defined.

Lemma patternCompare_percent p s :
  patternCompare (String "%" p) s
  = patternCompare p s
    || match s with
       | EmptyString => false
       | String _ s' => patternCompare (String "%" p) s'
       end.
Proof. destruct s; reflexivity. Qed.

Lemma patternCompare_literal c p s :
  wildcard c = false ->
  patternCompare (String c p) s
  = match s with
    | EmptyString => false
    | String d s' => Ascii.eqb (sql_lower_char c) (sql_lower_char d) && patternCompare p s'
    end.
Proof.
  unfold wildcard. intros H. apply orb_false_elim in H. destruct H as [H1 H2].
  simpl. rewrite H1, H2. reflexivity.
Qed.

Lemma patternCompare_percent_iff p s :
  patternCompare (String "%" p) s = true
  <-> exists pre rest, s = pre ++ rest /\ patternCompare p rest = true.
Proof.
  induction s as [|c s IH]; rewrite patternCompare_percent.
  - rewrite orb_false_r. split.
    + intros H. now exists "", "".
    + intros (pre & rest & Heq & H). destruct pre; [| discriminate].
      change (EmptyString = rest) in Heq. now subst rest.
  - rewrite orb_true_iff, IH. split.
    + intros [H | (pre & rest & -> & H)].
      * now exists "", (String c s).
      * now exists (String c pre), rest.
    + intros (pre & rest & Heq & H). destruct pre as [|d pre].
      * change (String c s = rest) in Heq. left. now subst rest.
      * change (String c s = String d (pre ++ rest)) in Heq.
        right. injection Heq as -> ->. now exists pre, rest.
Qed.

Lemma patternCompare_all_percent p s :
  all_chars is_percent p = true -> patternCompare (String "%" p) s = true.
Proof.
  revert s. induction p as [|c p IH]; intros s Hp.
  - induction s as [|d s IHs]; rewrite patternCompare_percent; [reflexivity |].
    now rewrite IHs, orb_true_r.
  - apply all_chars_cons in Hp. destruct Hp as [Hc Hp].
    unfold is_percent in Hc. apply Ascii.eqb_eq in Hc. subst c.
    rewrite patternCompare_percent. now rewrite (IH s Hp).
Qed.

Lemma patternCompare_literals t p s :
  all_chars (fun c => negb (wildcard c)) t = true ->
  patternCompare (t ++ p) s = true
  <-> exists m rest, s = m ++ rest /\ LOWER m = LOWER t /\ patternCompare p rest = true.
Proof.
  revert s. induction t as [|c t IH]; intros s Ht.
  - simpl. split.
    + intros H. now exists "", s.
    + intros (m & rest & -> & Hm & H). destruct m; [exact H | discriminate].
  - apply all_chars_cons in Ht. destruct Ht as [Hc Ht].
    apply negb_true_iff in Hc.
    change (String c t ++ p) with (String c (t ++ p)).
    rewrite (patternCompare_literal c _ s Hc). destruct s as [|d s].
    + split; [discriminate |].
      intros (m & rest & Heq & Hm & _). destruct m; discriminate.
    + rewrite andb_true_iff, Ascii.eqb_eq, (IH s Ht). split.
      * intros (Hcd & m & rest & -> & Hm & H).
        exists (String d m), rest. repeat split; [| exact H].
        unfold LOWER in *. simpl. now rewrite Hm, Hcd.
      * intros (m & rest & Heq & Hm & H). destruct m as [|e m]; [discriminate |].
        simpl in Heq. injection Heq as -> ->.
        unfold LOWER in Hm. simpl in Hm. injection Hm as Hcd Hm.
        split; [now symmetry |]. now exists m, rest.
Qed.

Lemma c_string_literal t :
  all_chars (fun c => negb (code c =? 0)) t = true -> c_string t = t.
Proof.
  induction t as [|c t IH]; simpl; [reflexivity |]. intros H.
  apply andb_prop in H. destruct H as [Hc Ht]. apply negb_true_iff in Hc.
  now rewrite Hc, IH.
Qed.

Lemma all_chars_app p t1 t2 :
  all_chars p (t1 ++ t2) = all_chars p t1 && all_chars p t2.
Proof.
  induction t1 as [|c t1 IH]; [reflexivity |].
  change (String c t1 ++ t2) with (String c (t1 ++ t2)). simpl.
  now rewrite IH, andb_assoc.
Qed.

Lemma all_chars_weaken (p q : ascii -> bool) t :
  (forall c, p c = true -> q c = true) ->
  all_chars p t = true -> all_chars q t = true.
Proof.
  intros Hpq. induction t as [|c t IH]; simpl; [reflexivity |]. intros H.
  apply andb_prop in H. destruct H as [Hc Ht]. now rewrite (Hpq c Hc), IH.
Qed.

Lemma c_string_pattern t :
  all_chars (fun c => negb (code c =? 0)) t = true ->
  c_string ("%" ++ t ++ "%") = "%" ++ t ++ "%".
Proof.
  intros Ht. apply c_string_literal.
  change ("%" ++ t ++ "%") with (String "%" (t ++ "%")).
  simpl. now rewrite all_chars_app, Ht.
Qed.

(** For a term of literal characters the pattern [%term%] asks for a
    substring of what the engine reads of the text, up to the case of
    ASCII letters. *)
Lemma LIKE_substring s t :
  all_chars literal t = true ->
  LIKE s ("%" ++ t ++ "%") = true <-> contains_nocase (c_string s) t.
Proof.
  intros Ht.
  assert (Hw : all_chars (fun c => negb (wildcard c)) t = true).
  { revert Ht. apply all_chars_weaken. unfold literal. intros c Hc.
    now apply andb_prop in Hc. }
  assert (Hn : all_chars (fun c => negb (code c =? 0)) t = true).
  { revert Ht. apply all_chars_weaken. unfold literal. intros c Hc.
    now apply andb_prop in Hc. }
  unfold LIKE, contains_nocase. rewrite (c_string_pattern t Hn).
  change ("%" ++ t ++ "%") with (String "%" (t ++ "%")).
  rewrite patternCompare_percent_iff. split.
  - intros (pre & rest & Heq & H). apply (patternCompare_literals t "%" rest Hw) in H.
    destruct H as (m & post & -> & Hm & _). now exists pre, m, post.
  - intros (pre & m & post & Heq & Hm). exists pre, (m ++ post). split; [exact Heq |].
    apply (patternCompare_literals t "%" _ Hw). exists m, post.
    repeat split; [exact Hm |]. now apply patternCompare_all_percent.
Qed.

(** X12. Which rows a search term selects: when the normalized term
    holds no [%], no [_] and no U+0000, a row satisfies the WHERE clause of
    [searchResponses] exactly when its key contains the term, or when it
    is active and its answer contains the term, as a substring up to the
    case of ASCII letters; of key and answer the engine reads what
    precedes their first U+0000. *)
Theorem search_where_substring (term : string) (r : conversation) :
  all_chars literal (trim (toLowerCase term)) = true ->
  search_where ("%" ++ trim (toLowerCase term) ++ "%") r = true
  <-> contains_nocase (c_string (normalized_question r)) (trim (toLowerCase term))
      \/ (contains_nocase (c_string (answer r)) (trim (toLowerCase term))
          /\ is_active r = true).
Proof.
  intros Ht. unfold search_where.
  rewrite orb_true_iff, andb_true_iff, !(LIKE_substring _ _ Ht). reflexivity.
Qed.

Lemma search_where_substring_witness :
  search_where ("%" ++ trim (toLowerCase " HELL ") ++ "%")
               (fresh_row 1 "hello" "Hi there!" 0) = true.
Proof.
  apply (search_where_substring " HELL " (fresh_row 1 "hello" "Hi there!" 0)).
  - reflexivity.
  - left. now exists "", "hell", "o".
Defined.

(** The engine stops at U+0000: text behind it is never matched. *)
Example search_where_behind_nul :
  let r := fresh_row 1 (String "a" (String "000" "bc")) "x" 0 in
  search_where "%bc%" r = false /\ search_where "%a%" r = true.
Proof. split; reflexivity. Qed.

(** X13. Wildcards in the term are not escaped: when the normalized term
    consists of [%] characters only (or is empty), every row of the table
    satisfies the WHERE clause, inactive rows included, so a page that
    [searchResponses] resolves to is cut from a permutation of the whole
    table. *)
Theorem searchResponses_percent_term (term : string) (limit offset : Z) (s : db)
        (rows : list conversation) :
  all_chars is_percent (trim (toLowerCase term)) = true ->
  searchResponses term limit offset s = Resolved rows ->
  (forall r, search_where ("%" ++ trim (toLowerCase term) ++ "%") r = true)
  /\ exists ordered,
       Permutation ordered (conversations s)
       /\ rows = limit_offset limit offset ordered.
Proof.
  intros Ht Hrows.
  assert (Hp : all_chars is_percent (trim (toLowerCase term) ++ "%") = true).
  { now rewrite all_chars_app, Ht. }
  assert (Hall : forall r, search_where ("%" ++ trim (toLowerCase term) ++ "%") r = true).
  { intros r. unfold search_where, LIKE.
    rewrite c_string_literal.
    - change ("%" ++ trim (toLowerCase term) ++ "%")
        with (String "%" (trim (toLowerCase term) ++ "%")).
      rewrite patternCompare_all_percent; [reflexivity | exact Hp].
    - change ("%" ++ trim (toLowerCase term) ++ "%")
        with (String "%" (trim (toLowerCase term) ++ "%")).
      simpl. revert Hp. apply all_chars_weaken.
      intros c Hc. unfold is_percent in Hc. apply Ascii.eqb_eq in Hc. now subst c. }
  split; [exact Hall |].
  apply select_like_resolved in Hrows. eexists. split; [| exact Hrows].
  rewrite order_by_perm. clear Hrows.
  induction (conversations s) as [|r l IH]; simpl; [reflexivity |].
  rewrite Hall. apply perm_skip. exact IH.
Qed.

Lemma searchResponses_percent_term_witness :
  exists ordered,
    Permutation ordered (conversations archived_hello)
    /\ conversations archived_hello = limit_offset 10 0 ordered.
Proof.
  apply (searchResponses_percent_term " % " 10 0 archived_hello);
    reflexivity.
Defined.

End SearchMore.


(** ** More on the routes *)

Section RoutesMore.
Import Text Sqlite Database Routes Spec Notions Samples.

Lemma teach_cases (question answer : option string) (e : env) (s : db) :
  exists message,
    teach question answer e s = (BadRequest message, s)
    \/ teach question answer e s = (InternalServerError message, s).
Proof.
  unfold teach. destruct question as [q|], answer as [a|]; try (eexists; now left).
  destruct (missing_or_empty (Some q) || missing_or_empty (Some a));
    [eexists; now left |].
  destruct ((500 <? js_length q) || (1000 <? js_length a));
    [eexists; now left |].
  rewrite upsertResponse_rejected. eexists. now right.
Qed.

(** X14. The teach route never answers 201 and never writes: whatever
    the body, the reply is a 400 or a 500 and both tables are left as
    they were, because [upsertResponse] is rejected before anything is
    logged. *)
Theorem teach_never_saves (question answer : option string) (e : env) (s : db) :
  exists message,
    teach question answer e s = (BadRequest message, s)
    \/ teach question answer e s = (InternalServerError message, s).
Proof. apply teach_cases. Qed.

(** X15. A question that [findResponse] resolves to a row is answered
    with that row's answer and teach count, and exactly one log entry is
    appended, holding the question as asked, the answer, the taught flag
    and the measured time; the conversations are left as they were. *)
Theorem ask_found (q : string) (e : env) (s : db) (r : conversation) :
  trim q <> "" ->
  findResponse q s = Resolved (Some r) ->
  exists entry s',
    ask (Some q) e s
    = (AskTaught q (answer r) (teach_count r) (end_time e - start_time e), s')
    /\ logs s' = (logs s ++ [entry])%list
    /\ (log_question entry, response entry, is_taught entry, response_time_ms entry)
       = (q, Some (answer r), true, end_time e - start_time e)
    /\ conversations s' = conversations s.
Proof.
  intros Hq Hfind. unfold ask.
  rewrite (trim_nonempty q Hq), Hfind. simpl.
  eexists {| log_id := logs_seq s + 1 |}, _. repeat split.
Qed.

Lemma ask_found_witness :
  exists entry s',
    ask (Some "  HELLO  ") quiet_env one_hello = (AskTaught "  HELLO  " "Hi there!" 1 2, s')
    /\ logs s' = [entry].
Proof.
  destruct (ask_found "  HELLO  " quiet_env one_hello
              (fresh_row 1 "hello" "Hi there!" 0))
    as (entry & s' & Hask & Hlogs & _).
  - discriminate.
  - reflexivity.
  - exists entry, s'. split; [exact Hask | exact Hlogs].
Defined.

Lemma ask_cases (q : option string) (e : env) (s : db) :
  if missing_or_blank q
  then ask q e s = (BadRequest "Question parameter (q) is required", s)
  else exists text rep entry s',
         q = Some text
         /\ ask q e s = (rep, s')
         /\ answers_ask rep = true
         /\ logs s' = (logs s ++ [entry])%list
         /\ log_question entry = text
         /\ is_taught entry = (if rep is AskTaught _ _ _ _ then true else false)
         /\ conversations s' = conversations s
         /\ conversations_seq s' = conversations_seq s.
Proof.
  destruct (missing_or_blank q) eqn:Hb.
  - unfold ask. destruct q as [text|]; [| reflexivity]. now rewrite Hb.
  - destruct q as [text|]; [| discriminate]. unfold ask. rewrite Hb.
    unfold findResponse.
    destruct (List.find _ (conversations s)) as [r|]; simpl;
      eexists text, _, {| log_id := logs_seq s + 1 |}, _; repeat split.
Qed.

(** X16. The ask route logs exactly the questions it answers: a missing
    or blank question gets a 400 and leaves the store untouched; any
    other question gets an answering reply and appends one log entry,
    whose taught flag tells whether a stored answer was returned. *)
Theorem ask_logs_what_it_answers (q : option string) (e : env) (s : db) :
  if missing_or_blank q
  then ask q e s = (BadRequest "Question parameter (q) is required", s)
  else exists text rep entry s',
         q = Some text
         /\ ask q e s = (rep, s')
         /\ answers_ask rep = true
         /\ logs s' = (logs s ++ [entry])%list
         /\ log_question entry = text
         /\ is_taught entry = (if rep is AskTaught _ _ _ _ then true else false)
         /\ conversations s' = conversations s
         /\ conversations_seq s' = conversations_seq s.
Proof. apply ask_cases. Qed.

Lemma search_reads_only q l p s : snd (search q l p s) = s.
Proof.
  unfold search. destruct q as [t|]; [| reflexivity].
  destruct (missing_or_blank (Some t)); [reflexivity |].
  now destruct (searchResponses t _ _ s).
Qed.

Lemma search_not_an_answer q l p s : answers_ask (fst (search q l p s)) = false.
Proof.
  unfold search. destruct q as [t|]; [| reflexivity].
  destruct (missing_or_blank (Some t)); [reflexivity |].
  now destruct (searchResponses t _ _ s).
Qed.

Lemma dispatch_effect r e s :
  exists added,
    logs (snd (dispatch r e s)) = (logs s ++ added)%list
    /\ length added = (if answers_ask (fst (dispatch r e s)) then 1 else 0)%nat
    /\ conversations (snd (dispatch r e s)) = conversations s
    /\ conversations_seq (snd (dispatch r e s)) = conversations_seq s.
Proof.
  destruct r as [| q | question ans | | q l p |]; simpl.
  - exists []. now rewrite app_nil_r.
  - pose proof (ask_cases q e s) as H.
    destruct (missing_or_blank q).
    + rewrite H. exists []. simpl. now rewrite app_nil_r.
    + destruct H as (text & rep & entry & s' & -> & Hask & Hans & Hlogs & _ & _ & Hc & Hq).
      rewrite Hask. simpl. rewrite Hans. now exists [entry].
  - destruct (teach_cases question ans e s) as (msg & [-> | ->]);
      exists []; simpl; now rewrite app_nil_r.
  - exists []. now rewrite app_nil_r.
  - exists []. rewrite search_reads_only, search_not_an_answer.
    simpl. now rewrite app_nil_r.
  - exists []. now rewrite app_nil_r.
Qed.

Lemma router_effect r e a :
  exists added,
    logs (store (snd (router r e a))) = (logs (store a) ++ added)%list
    /\ length added = (if answers_ask (fst (router r e a)) then 1 else 0)%nat
    /\ conversations (store (snd (router r e a))) = conversations (store a)
    /\ conversations_seq (store (snd (router r e a))) = conversations_seq (store a).
Proof.
  unfold router. destruct (rateLimit _ _ _) as [[retry | remaining] counts].
  - exists []. simpl. now rewrite app_nil_r.
  - pose proof (dispatch_effect r e (store a)) as H.
    destruct (dispatch r e (store a)) as [rep s']. exact H.
Qed.

(** X17. Serving requests never changes the conversations: after any
    sequence of requests the table and its id counter are what they
    were, there is one reply per request, and the log has grown by
    exactly one entry per answered ask. *)
Theorem serve_store_effect (trace : list (request * env)) (a : app) :
  exists replies a' added,
    serve trace a = (replies, a')
    /\ length replies = length trace
    /\ conversations (store a') = conversations (store a)
    /\ conversations_seq (store a') = conversations_seq (store a)
    /\ logs (store a') = (logs (store a) ++ added)%list
    /\ length added = length (List.filter answers_ask replies).
Proof.
  revert a. induction trace as [|[r e] trace IH]; intros a.
  - exists [], a, []. simpl. now rewrite app_nil_r.
  - destruct (router_effect r e a) as (added1 & Hl1 & Hn1 & Hc1 & Hq1).
    simpl serve. destruct (router r e a) as [rep a1]. simpl in *.
    destruct (IH a1) as (replies & a' & added & Hs & Hlen & Hc & Hq & Hl & Hn).
    rewrite Hs. exists (rep :: replies), a', (added1 ++ added)%list.
    split; [reflexivity |]. simpl. rewrite Hlen, Hc, Hq, Hl, Hl1, app_assoc, length_app.
    repeat split; try assumption.
    destruct (answers_ask rep); simpl; lia.
Qed.

(** [parsed_or] never yields zero when the default is not zero. *)
Lemma to_double_nonpos z : z <= 0 -> to_double z <= 0.
Proof.
  intros Hz. unfold to_double.
  destruct (Z.log2 (Z.abs z) - 52 <=? 0) eqn:Hs; [exact Hz |].
  apply Z.leb_gt in Hs.
  set (unit := 2 ^ (Z.log2 (Z.abs z) - 52)).
  assert (Hunit : 0 < unit) by (apply Z.pow_pos_nonneg; lia).
  assert (Hq : 0 <= Z.abs z / unit) by (apply Z.div_pos; lia).
  apply Z.mul_nonpos_nonneg; [now apply Z.sgn_nonpos |].
  apply Z.mul_nonneg_nonneg; [| lia].
  destruct (_ || _); lia.
Qed.

Lemma low_page_offset limit p :
  0 < limit -> p <= 1 ->
  to_double (to_double (parsed_or (Some p) 1 - 1) * limit) <= 0.
Proof.
  intros Hl Hp. apply to_double_nonpos.
  assert (Hpage : parsed_or (Some p) 1 <= 1).
  { unfold parsed_or, nonzero_or. cbn [default]. unfold id.
    destruct (Z.eqb_spec (to_double p) 0) as [_ | Hne]; [lia |].
    destruct (Z.eq_dec p 1) as [-> | Hp1]; [reflexivity |].
    pose proof (to_double_nonpos p ltac:(lia)). lia. }
  pose proof (to_double_nonpos (parsed_or (Some p) 1 - 1) ltac:(lia)). nia.
Qed.

(** X18. Page numbers below 1 show the first page: with a positive
    limit, for every page number not above 1 (zero and negative ones
    included) the search route either returns the results it returns when
    no page is given, or answers 500 (which is what happens when the
    offset computed from the page is not a number the engine takes). *)
Theorem search_low_page_is_first (q : option string) (limit_param : option Z)
        (p : Z) (s : db) :
  0 < parsed_or limit_param 10 ->
  p <= 1 ->
  report_results (fst (search q limit_param (Some p) s))
  = report_results (fst (search q limit_param None s))
  \/ fst (search q limit_param (Some p) s)
     = InternalServerError "Failed to search responses".
Proof.
  intros Hl Hp. pose proof (low_page_offset _ p Hl Hp) as Hoff.
  unfold search. destruct q as [t|]; [| now left].
  destruct (missing_or_blank (Some t)); [now left |].
  set (limit := parsed_or limit_param 10) in *.
  set (offset := to_double (to_double (parsed_or (Some p) 1 - 1) * limit)) in *.
  change (to_double (to_double (parsed_or None 1 - 1) * limit)) with 0.
  unfold searchResponses, select_like.
  destruct (must_be_int limit); simpl; [| now left].
  replace (limit =? 0) with false by (symmetry; apply Z.eqb_neq; lia).
  destruct (must_be_int offset); simpl; [| now right].
  destruct (conversations s) as [|r l]; [now left |].
  destruct (pattern_too_complex _); [now left |].
  left. simpl. unfold limit_offset.
  replace (Z.to_nat offset) with 0%nat by lia. reflexivity.
Qed.

Lemma search_low_page_is_first_witness :
  report_results (fst (search (Some "h") (Some 1) (Some (-3)) archived_hello))
  = report_results (fst (search (Some "h") (Some 1) None archived_hello))
  \/ fst (search (Some "h") (Some 1) (Some (-3)) archived_hello)
     = InternalServerError "Failed to search responses".
Proof. apply search_low_page_is_first; [reflexivity | lia]. Defined.

(** A page number far below zero puts the offset outside the engine's
    range: the route answers 500 although the same search without a page
    number answers 200. *)
Example search_huge_negative_page :
  fst (search (Some "h") (Some 1) (Some (- 10 ^ 19)) archived_hello)
  = InternalServerError "Failed to search responses"
  /\ report_results (fst (search (Some "h") (Some 1) None archived_hello))
     = Some (take 1 (conversations archived_hello)).
Proof. split; reflexivity. Qed.

End RoutesMore.


(** ** More on the rate limiter *)

Section RateLimitMore.
Import Text Sqlite Database Routes Spec Notions Samples.

Lemma filter_length_bound {A : Type} (p : A -> bool) (l : list A) :
  (length (List.filter p l) <= length l)%nat.
Proof.
  induction l as [|x l IH]; simpl; [lia |]. destruct (p x); simpl; lia.
Qed.

Lemma router_counts_bounded r e a :
  counts_bounded (requestCounts a) -> counts_bounded (requestCounts (snd (router r e a))).
Proof.
  intros Hb ip.
  destruct (router_cases r e a) as (rep & a' & Hr & Hother & Hcase).
  rewrite Hr. simpl.
  destruct (String.eqb_spec ip (client e)) as [-> | Hne].
  - pose proof (filter_length_bound
                  (fun t => date_now e - RATE_LIMIT_WINDOW <? t)
                  (requests_of (requestCounts a) (client e))) as Hf.
    specialize (Hb (client e)).
    destruct Hcase as [(_ & _ & _ & ->) | (Hlen & _ & ->)]; [lia |].
    rewrite length_app. simpl. lia.
  - rewrite (Hother ip Hne). apply Hb.
Qed.

(** X19. The memory kept per address is bounded, whatever the clock
    does: if no address has more than 100 time stamps on record, the same
    holds after any sequence of requests. *)
Theorem serve_counts_bounded (trace : list (request * env)) (a : app) :
  counts_bounded (requestCounts a) ->
  counts_bounded (requestCounts (snd (serve trace a))).
Proof.
  revert a. induction trace as [|[r e] trace IH]; intros a Hb; [exact Hb |].
  simpl. pose proof (router_counts_bounded r e a Hb) as H1.
  destruct (router r e a) as [rep a1]. specialize (IH a1 H1).
  destruct (serve trace a1) as [replies a2]. exact IH.
Qed.

Lemma serve_counts_bounded_witness :
  counts_bounded (requestCounts new_app)
  /\ counts_bounded (requestCounts (snd (serve (burst 3) new_app))).
Proof.
  assert (H : counts_bounded (requestCounts new_app)).
  { intros ip. unfold requests_of. simpl. rewrite lookup_empty. simpl.
    unfold RATE_LIMIT. lia. }
  split; [exact H | exact (serve_counts_bounded (burst 3) new_app H)].
Defined.

Lemma serve_first_requests trace :
  forall a ip,
    (length (requests_of (requestCounts a) ip) + requests_from ip trace
     <= RATE_LIMIT)%nat ->
    List.Forall (fun rep => limited rep = false)
                (replies_to ip trace (fst (serve trace a))).
Proof.
  induction trace as [|[r e] trace IH]; intros a ip Hle; [constructor |].
  destruct (router_cases r e a) as (rep & a1 & Hr & Hother & Hcase).
  simpl serve. rewrite Hr.
  specialize (IH a1 ip). destruct (serve trace a1) as [replies a2]. simpl in IH |- *.
  unfold requests_from in Hle. simpl in Hle.
  pose proof (filter_length_bound
                (fun t => date_now e - RATE_LIMIT_WINDOW <? t)
                (requests_of (requestCounts a) (client e))) as Hf.
  destruct (String.eqb_spec (client e) ip) as [Heq | Hne].
  - subst ip. simpl in Hle.
    destruct Hcase as [(Hlen & _) | (Hlen & Hlim & Hreq)]; [lia |].
    constructor; [exact Hlim |]. apply IH. rewrite Hreq, length_app. simpl.
    unfold requests_from. lia.
  - apply IH. rewrite (Hother ip) by congruence. exact Hle.
Qed.

(** X20. The first hundred requests of an address always pass: from the
    empty [requestCounts], if an address sends at most 100 requests in a
    trace then none of them is answered 429, whatever the other
    addresses send and whatever the clock readings are. *)
Theorem first_hundred_pass (trace : list (request * env)) (s0 : db) (ip : string) :
  (requests_from ip trace <= RATE_LIMIT)%nat ->
  List.Forall (fun rep => limited rep = false)
    (replies_to ip trace (fst (serve trace {| store := s0; requestCounts := ∅ |}))).
Proof.
  intros H. apply serve_first_requests. simpl.
  unfold requests_of. now rewrite lookup_empty.
Qed.

Lemma first_hundred_pass_witness :
  List.Forall (fun rep => limited rep = false)
    (replies_to "10.0.0.1" (burst 3)
       (fst (serve (burst 3) {| store := empty_db; requestCounts := ∅ |}))).
Proof.
  apply first_hundred_pass. unfold requests_from, RATE_LIMIT. simpl. lia.
Defined.

(** X21. A limited caller is told to retry after at least one second, and
    after at most sixty when no recorded time stamp lies in the future. *)
Theorem rateLimit_retry_after (ip : string) (now : Z)
        (counts counts' : gmap string (list Z)) (retry : option Z) :
  rateLimit ip now counts = (Limited retry, counts') ->
  exists seconds,
    retry = Some seconds
    /\ 1 <= seconds
    /\ ((forall t, In t (requests_of counts ip) -> t <= now) -> seconds <= 60).
Proof.
  unfold rateLimit, requests_of. destruct (counts !! ip) as [times|] eqn:Hl.
  - rewrite lookup_insert_eq. cbn [default]. unfold id.
    set (cur := List.filter (fun time => now - RATE_LIMIT_WINDOW <? time) times).
    destruct (RATE_LIMIT <=? length cur)%nat eqn:Hc; [| discriminate].
    apply Nat.leb_le in Hc. intros [= <- _].
    destruct cur as [|first rest] eqn:Hcur; [unfold RATE_LIMIT in Hc; simpl in Hc; lia |].
    assert (Hin : In first (List.filter (fun time => now - RATE_LIMIT_WINDOW <? time) times)).
    { fold cur. rewrite Hcur. now left. }
    apply filter_In in Hin. destruct Hin as [Hin Hlt]. apply Z.ltb_lt in Hlt.
    exists (ceil_div_1000 (first + RATE_LIMIT_WINDOW - now)). split; [reflexivity |].
    unfold ceil_div_1000, RATE_LIMIT_WINDOW in *.
    pose proof (Z.div_mod (- (first + 60000 - now)) 1000 ltac:(lia)) as Hdm.
    pose proof (Z.mod_pos_bound (- (first + 60000 - now)) 1000 ltac:(lia)) as Hm.
    split; [lia |]. intros Hpast. specialize (Hpast first Hin). lia.
  - rewrite Hl. cbn [default length Nat.leb RATE_LIMIT]. discriminate.
Qed.

Lemma rateLimit_retry_after_witness :
  exists seconds,
    fst (rateLimit "10.0.0.1" 1000 (requestCounts (snd (serve (burst 100) new_app))))
    = Limited (Some seconds)
    /\ 1 <= seconds.
Proof.
  destruct (rateLimit "10.0.0.1" 1000 (requestCounts (snd (serve (burst 100) new_app))))
    as [[retry | remaining] counts'] eqn:Hrl.
  - destruct (rateLimit_retry_after _ _ _ _ _ Hrl) as (seconds & -> & H1 & _).
    exists seconds. split; [reflexivity | exact H1].
  - exfalso. vm_compute in Hrl. discriminate Hrl.
Defined.

(** X22. The limiter lets a caller back in: when every time stamp on
    record for an address is at least a full window old, its next request
    passes with 99 requests remaining, and the record of the address is
    reset to that one request. *)
Theorem rateLimit_recovers (ip : string) (now : Z) (counts : gmap string (list Z)) :
  (forall t, In t (requests_of counts ip) -> t <= now - RATE_LIMIT_WINDOW) ->
  exists counts',
    rateLimit ip now counts = (Next 99, counts')
    /\ requests_of counts' ip = [now].
Proof.
  intros Hold.
  assert (Hcur : List.filter (fun t => now - RATE_LIMIT_WINDOW <? t)
                             (requests_of counts ip) = []).
  { induction (requests_of counts ip) as [|t l IH]; simpl; [reflexivity |].
    replace (now - RATE_LIMIT_WINDOW <? t) with false
      by (symmetry; apply Z.ltb_ge; apply Hold; now left).
    apply IH. intros t' Ht'. apply Hold. now right. }
  revert Hcur. unfold rateLimit, requests_of.
  destruct (counts !! ip) as [times|] eqn:Hl; cbn [default]; unfold id.
  - intros Hcur. rewrite lookup_insert_eq. cbn [default]. unfold id.
    rewrite Hcur. simpl.
    eexists. split; [reflexivity |]. now rewrite lookup_insert_eq.
  - intros _. rewrite Hl. simpl.
    eexists. split; [reflexivity |]. now rewrite lookup_insert_eq.
Qed.

Lemma rateLimit_recovers_witness :
  exists counts',
    rateLimit "10.0.0.1" 61000 (requestCounts (snd (serve (burst 100) new_app)))
    = (Next 99, counts')
    /\ requests_of counts' "10.0.0.1" = [61000].
Proof.
  apply rateLimit_recovers. intros t Ht.
  assert (Hall : List.Forall (fun t => t <= 61000 - RATE_LIMIT_WINDOW)
            (requests_of (requestCounts (snd (serve (burst 100) new_app))) "10.0.0.1")).
  { vm_compute. repeat constructor; discriminate. }
  rewrite List.Forall_forall in Hall. now apply Hall.
Defined.

End RateLimitMore.


(** ** Opening the database *)

Section Connect.
Import Sqlite Database Connection Samples.

(** Seeding adds nothing to any store: the first default pair is already
    rejected and the loop is left. *)
Lemma seedDefaultData_unchanged now s : seedDefaultData now s = s.
Proof. reflexivity. Qed.

Lemma connectWithRetry_runs fuel :
  forall opens made waited now c s,
    (maxRetries c - retryCount c < fuel)%nat ->
    exists o,
      connectWithRetry fuel opens made waited now c s = Some o
      /\ (made < attempts o)%nat
      /\ (attempts o <= made + Nat.max 1 (maxRetries c - retryCount c))%nat
      /\ (retryCount c <= retryCount (object o))%nat
      /\ maxRetries (object o) = maxRetries c
      /\ file o = s
      /\ waited <= waited_ms o
      /\ (settled o = Connected <-> opens (attempts o - 1)%nat = true)
      /\ (forall i, (made <= i)%nat -> (i < attempts o - 1)%nat -> opens i = false)
      /\ (settled o = Connected -> isConnected (object o) = true).
Proof.
  induction fuel as [|fuel IH]; intros opens made waited now c s Hfuel; [lia |].
  simpl. destruct (opens made) eqn:Hopen.
  - eexists. split; [reflexivity |]. simpl. rewrite Nat.sub_0_r.
    repeat split; try lia; try assumption; try reflexivity; auto.
  - destruct (S (retryCount c) <? maxRetries c)%nat eqn:Hlt.
    + apply Nat.ltb_lt in Hlt.
      destruct (IH opens (S made) (waited + 1000 * Z.of_nat (S (retryCount c))) now
                  {| has_db := true; isConnected := isConnected c;
                     retryCount := S (retryCount c); maxRetries := maxRetries c |} s)
        as (o & Hrun & H1 & H2 & H3 & H4 & H5 & H6 & H7 & H8 & H9);
        [simpl; lia |].
      simpl in *. exists o. split; [exact Hrun |].
      repeat split; try lia; try tauto.
      intros i Hi1 Hi2. destruct (Nat.eq_dec i made) as [-> | Hne]; [exact Hopen |].
      apply H8; lia.
    + apply Nat.ltb_ge in Hlt. eexists. split; [reflexivity |]. simpl.
      rewrite Nat.sub_0_r. repeat split; try lia; try discriminate; try congruence.
Qed.

(** X23. [connect] always settles, with a bounded number of open
    attempts: at least one, and at most [maxRetries - retryCount] (one
    when the counter has already reached [maxRetries]).  It resolves
    exactly when its last attempt opens the file, every earlier attempt
    having failed; the counter never goes down, and the tables of the
    store are left as they were (seeding adds nothing). *)
Theorem connect_settles (opens : nat -> bool) (now : Z) (c : connection) (s : db) :
  exists o,
    connect opens now c s = Some o
    /\ (1 <= attempts o <= Nat.max 1 (maxRetries c - retryCount c))%nat
    /\ (settled o = Connected <-> opens (attempts o - 1)%nat = true)
    /\ (forall i, (i < attempts o - 1)%nat -> opens i = false)
    /\ (settled o = Connected -> isConnected (object o) = true)
    /\ (retryCount c <= retryCount (object o))%nat
    /\ file o = s.
Proof.
  destruct (connectWithRetry_runs (S (maxRetries c - retryCount c)) opens 0 0 now c s)
    as (o & Hrun & H1 & H2 & H3 & H4 & H5 & H6 & H7 & H8 & H9); [lia |].
  exists o. split; [exact Hrun |]. repeat split; try lia; try tauto.
  intros i Hi. apply H8; lia.
Qed.

(** X24. A new [Database] object makes at most three attempts and sleeps
    at most three seconds in all; it connects exactly when one of the
    first three attempts opens the file. *)
Theorem connect_new_object (opens : nat -> bool) (now : Z) (s : db) :
  exists o,
    connect opens now new_connection s = Some o
    /\ (attempts o <= 3)%nat
    /\ waited_ms o <= 3000
    /\ (settled o = Connected
        <-> opens 0%nat = true \/ opens 1%nat = true \/ opens 2%nat = true)
    /\ isConnected (object o)
       = (opens 0%nat || opens 1%nat || opens 2%nat).
Proof.
  unfold connect, new_connection. simpl.
  destruct (opens 0%nat) eqn:H0; simpl;
    [| destruct (opens 1%nat) eqn:H1; simpl;
       [| destruct (opens 2%nat) eqn:H2; simpl]];
    eexists; (split; [reflexivity |]); simpl;
    repeat split; try lia; try tauto; try discriminate;
    intros [H | [H | H]]; discriminate H.
Qed.

(** X25. The retry counter is never reset.  After a first [connect] on a
    new object, a second [connect] on the same object makes at most
    [4 - k] attempts (at least one) when the first made [k]; after a
    failed first call it makes exactly one attempt. *)
Theorem connect_again (opens1 opens2 : nat -> bool) (now : Z) (s : db) :
  exists o1 o2,
    connect opens1 now new_connection s = Some o1
    /\ connect opens2 now (object o1) s = Some o2
    /\ (attempts o2 <= Nat.max 1 (4 - attempts o1))%nat
    /\ (settled o1 = ConnectFailed ->
        attempts o2 = 1%nat
        /\ (settled o2 = Connected <-> opens2 0%nat = true)).
Proof.
  assert (Hgen : forall o1, exists o2,
             connect opens2 now (object o1) s = Some o2
             /\ (1 <= attempts o2
                 <= Nat.max 1 (maxRetries (object o1) - retryCount (object o1)))%nat
             /\ (settled o2 = Connected <-> opens2 (attempts o2 - 1)%nat = true)).
  { intros o1.
    destruct (connectWithRetry_runs
                (S (maxRetries (object o1) - retryCount (object o1)))
                opens2 0 0 now (object o1) s)
      as (o2 & Hrun & H1 & H2 & _ & _ & _ & _ & H7 & _); [lia |].
    exists o2. split; [exact Hrun |]. split; [lia | exact H7]. }
  unfold connect at 1. unfold new_connection. simpl.
  destruct (opens1 0%nat) eqn:H0; simpl;
    [| destruct (opens1 1%nat) eqn:H1; simpl;
       [| destruct (opens1 2%nat) eqn:H2; simpl]];
    match goal with
    | |- exists o1 o2, Some ?x = Some o1 /\ _ =>
        exists x; destruct (Hgen x) as (o2 & Hrun & Hb & Hiff); exists o2
    end;
    simpl in *; (split; [reflexivity |]); (split; [exact Hrun |]);
    (split; [lia |]); try discriminate.
  intros _. assert (Hone : attempts o2 = 1%nat) by lia.
  split; [exact Hone |]. now rewrite Hone in Hiff.
Qed.

End Connect.
